(** * MysqlPlugin: the interception and span-lifecycle engine

    A shallow embedding of
    [plugins/node/opentelemetry-plugin-mysql/src/mysql.ts].

    JavaScript function values are closures over mutable objects, so the
    embedding is defunctionalised: every function literal of [mysql.ts]
    is a constructor of [code] holding the variables it captures, and
    [call] runs its body.  Objects live in a store ([heap]); the driver
    (the [mysql] module itself) and the application's own callbacks are
    [Native] functions whose effect on the store is given by a parameter
    and whose invocations are recorded, with their receiver and
    arguments, in a [trace].

    What the model takes from outside [mysql.ts]:
    - [shimmer.wrap] and [shimmer.unwrap] (package [shimmer]) and
      [isWrapped] (package [@opentelemetry/core]) after their published
      behaviour; a wrapped function carries its marks in its value
      ([Wrapped]) and an identity ([uid]) for shimmer's [===] test;
    - the span operations of the tracer as the SDK's [Span] has them
      (status [OK] at creation, operations ignored once ended);
    - [on] and [emit] of Node's [EventEmitter];
    - [getDbStatement] of [./utils] from the specification, and
      [getSpanName], [getConnectionAttributes] and the driver's [format]
      as parameters.

    The driver runs its callbacks on a later turn of the event loop: a
    [Native] call changes the store and returns, and the calls the
    driver makes later (of a shim, of a listener) are separate [call]s. *)

From Stdlib Require Import ZArith Ascii String List Bool Lia.
From stdpp Require Import base option list gmap strings pretty.

Local Open Scope string_scope.
Local Open Scope list_scope.
Set Warnings "-register-all".

(** ** Values *)

Definition loc := nat.

(** Where [shimmer.wrap] installed a wrapper: a named property of a heap
    object, or an index of an [arguments] object. *)
Inductive target :=
| TObj (l : loc) (name : string)
| TArguments (i : nat).

(** [val] are JavaScript values, [fn] function objects, [code] the
    function literals of [mysql.ts] with their captured variables. *)
Inductive val :=
| VUndefined
| VNull
| VBool (b : bool)
| VNum (z : Z)
| VStr (s : string)
| VArr (elems : list val)
| VObj (l : loc)
| VSpan (id : nat)
| VFun (f : fn)
with fn :=
(* a function of the driver or of the application *)
| Native (id : nat)
(* a function literal of this file, as created *)
| Closure (c : code)
(* the result of [shimmer.wrap]: the closure [c] returned by the wrapper,
   carrying [__wrapped], [__original] and [__unwrap] (for [t]) *)
| Wrapped (uid : nat) (t : target) (original : fn) (c : code)
with code :=
(* the functions returned by the wrappers of [_patchCreateConnection],
   [_patchCreatePool], [_patchCreatePoolCluster] (also called [createPool]
   in the source), [_patchGetConnection] and [_patchQuery]; the shims of
   [_getConnectionCallbackPatchFn] and [_patchCallbackQuery]; the two
   listeners of the streaming branch of [query] *)
| createConnection (originalCreateConnection : fn)
| createPool (originalCreatePool : fn)
| createPoolCluster (originalCreatePoolCluster : fn)
| getConnection (pool : val) (originalGetConnection : fn)
| getConnectionCallback (cb : val)
| query (connection : val) (originalQuery : fn)
| callbackQuery (span : nat) (originalCallback : fn)
| streamError (span : nat)
| streamEnd (span : nat).

Scheme val_mut := Induction for val Sort Prop
  with fn_mut := Induction for fn Sort Prop
  with code_mut := Induction for code Sort Prop.

(** The function literals handed to [shimmer.wrap] as wrappers. *)
Inductive wrapper :=
| _patchCreateConnection
| _patchCreatePool
| _patchCreatePoolCluster
| _patchGetConnection (pool : val)
| _patchQuery (connection : val)
| _patchCallbackQuery (span : nat).

(** ** Tracing API *)

Module CanonicalCode.
Inductive t :=
| OK | CANCELLED | UNKNOWN | INVALID_ARGUMENT | DEADLINE_EXCEEDED
| NOT_FOUND | ALREADY_EXISTS | PERMISSION_DENIED | RESOURCE_EXHAUSTED
| FAILED_PRECONDITION | ABORTED | OUT_OF_RANGE | UNIMPLEMENTED
| INTERNAL | UNAVAILABLE | DATA_LOSS | UNAUTHENTICATED.
End CanonicalCode.

Module SpanKind.
Inductive t := INTERNAL | SERVER | CLIENT | PRODUCER | CONSUMER.
End SpanKind.

Record Status := { code_ : CanonicalCode.t; message : val }.

(** A span as the tracer keeps it.  [ends] counts the calls of [end()];
    a span is created with status [OK], and once ended it ignores
    [setStatus] and [setAttribute]. *)
Record Span := {
  name : val;
  kind : SpanKind.t;
  attributes : list (string * val);
  status : Status;
  ends : nat;
}.

Definition DB_SYSTEM := "db.system".
Definition DB_STATEMENT := "db.statement".
Definition COMPONENT := "mysql".
Definition COMMON_ATTRIBUTES : list (string * val) :=
  [(DB_SYSTEM, VStr COMPONENT)].

(** ** Store *)

(** An object: its properties, and, when it is an event emitter, the
    listeners registered with [on], oldest first. *)
Record obj := {
  props : gmap string val;
  emitter : bool;
  listeners : list (string * fn);
}.

Inductive event :=
| ECall (id : nat) (this : val) (args : list val).

Record state := {
  _enabled : bool;
  _moduleExports : val;
  _logger : list string;
  _tracer : list Span;
  heap : gmap loc obj;
  next_uid : nat;
  trace : list event;
}.

Definition set_enabled (b : bool) (st : state) : state :=
  {| _enabled := b; _moduleExports := _moduleExports st;
     _logger := _logger st; _tracer := _tracer st; heap := heap st;
     next_uid := next_uid st; trace := trace st |}.

Definition set_logger (l : list string) (st : state) : state :=
  {| _enabled := _enabled st; _moduleExports := _moduleExports st;
     _logger := l; _tracer := _tracer st; heap := heap st;
     next_uid := next_uid st; trace := trace st |}.

Definition set_tracer (t : list Span) (st : state) : state :=
  {| _enabled := _enabled st; _moduleExports := _moduleExports st;
     _logger := _logger st; _tracer := t; heap := heap st;
     next_uid := next_uid st; trace := trace st |}.

Definition set_heap (h : gmap loc obj) (st : state) : state :=
  {| _enabled := _enabled st; _moduleExports := _moduleExports st;
     _logger := _logger st; _tracer := _tracer st; heap := h;
     next_uid := next_uid st; trace := trace st |}.

Definition set_next_uid (n : nat) (st : state) : state :=
  {| _enabled := _enabled st; _moduleExports := _moduleExports st;
     _logger := _logger st; _tracer := _tracer st; heap := heap st;
     next_uid := n; trace := trace st |}.

Definition set_trace (t : list event) (st : state) : state :=
  {| _enabled := _enabled st; _moduleExports := _moduleExports st;
     _logger := _logger st; _tracer := _tracer st; heap := heap st;
     next_uid := next_uid st; trace := t |}.

(** ** JavaScript primitives used by the plugin *)

(** [if (v)] *)
Definition truthy (v : val) : bool :=
  match v with
  | VUndefined | VNull => false
  | VBool b => b
  | VNum z => negb (z =? 0)%Z
  | VStr s => negb (String.eqb s EmptyString)
  | VArr _ | VObj _ | VSpan _ | VFun _ => true
  end.

(** [typeof v === 'function'] *)
Definition is_function (v : val) : bool :=
  match v with VFun _ => true | _ => false end.

(** [arguments[i]] *)
Definition arg (i : nat) (args : list val) : val :=
  default VUndefined (args !! i).

(** [o[name]] for a heap object (properties are own properties). *)
Definition lookup_prop (h : gmap loc obj) (l : loc) (name : string) : option val :=
  o ← h !! l; props o !! name.

(** [v.name]: a TypeError ([None]) on [undefined] and [null],
    [undefined] where the property is absent. *)
Definition get_prop (h : gmap loc obj) (v : val) (name : string) : option val :=
  match v with
  | VUndefined | VNull => None
  | VObj l => Some (default VUndefined (lookup_prop h l name))
  | _ => Some VUndefined
  end.

(** [Object.defineProperty(o, name, {value: v, ...})] on a heap object. *)
Definition set_prop (l : loc) (name : string) (v : val) (h : gmap loc obj)
  : gmap loc obj :=
  match h !! l with
  | Some o =>
      <[l := {| props := <[name := v]> (props o); emitter := emitter o;
                listeners := listeners o |}]> h
  | None => h
  end.

(** [isWrapped] of [@opentelemetry/core]: a function that carries the
    three marks of [shimmer.wrap]. *)
Definition isWrapped (func : val) : bool :=
  match func with
  | VFun (Wrapped _ _ _ _) => true
  | _ => false
  end.

(** ** Spans *)

Definition update_span (id : nat) (f : Span -> Span) (st : state) : state :=
  match _tracer st !! id with
  | Some s => set_tracer (<[id := f s]> (_tracer st)) st
  | None => st
  end.

(** [tracer.startSpan(name, {kind, attributes})]: the new span is the
    next index of the tracer's list. *)
Definition startSpan (nm : val) (k : SpanKind.t) (attrs : list (string * val))
    (st : state) : nat * state :=
  (length (_tracer st),
   set_tracer (_tracer st ++
     [{| name := nm; kind := k; attributes := attrs;
         status := {| code_ := CanonicalCode.OK; message := VUndefined |};
         ends := 0 |}]) st).

Definition with_attribute (key : string) (v : val) (s : Span) : Span :=
  {| name := name s; kind := kind s;
     attributes := attributes s ++ [(key, v)];
     status := status s; ends := ends s |}.

Definition with_status (s' : Status) (s : Span) : Span :=
  {| name := name s; kind := kind s; attributes := attributes s;
     status := s'; ends := ends s |}.

Definition ended (s : Span) : Span :=
  {| name := name s; kind := kind s; attributes := attributes s;
     status := status s; ends := S (ends s) |}.

(** [span.setAttribute(key, value)] *)
Definition setAttribute (id : nat) (key : string) (v : val) (st : state) : state :=
  update_span id
    (fun s => if Nat.eqb (ends s) 0 then with_attribute key v s else s) st.

(** [span.setStatus(status)] *)
Definition setStatus (id : nat) (s' : Status) (st : state) : state :=
  update_span id
    (fun s => if Nat.eqb (ends s) 0 then with_status s' s else s) st.

(** [span.end()] *)
Definition span_end (id : nat) (st : state) : state :=
  update_span id ended st.

(** The attribute a span reports for [key]: the last one set. *)
Definition attribute (key : string) (s : Span) : option val :=
  snd <$> last (List.filter (fun kv => String.eqb (fst kv) key) (attributes s)).

(** [thisPlugin._logger.debug(msg)] *)
Definition debug (msg : string) (st : state) : state :=
  set_logger (_logger st ++ [msg]) st.

(** ** shimmer *)

(** What the wrapper passed to [shimmer.wrap] does when shimmer applies
    it to the original: it logs, and returns the function literal that
    closes over [original]. *)
Definition apply_wrapper (w : wrapper) (original : fn) (st : state)
  : code * state :=
  match w with
  | _patchCreateConnection =>
      (createConnection original,
       debug "MysqlPlugin#patch: patched mysql createConnection" st)
  | _patchCreatePool =>
      (createPool original,
       debug "MysqlPlugin#patch: patched mysql createPool" st)
  | _patchCreatePoolCluster =>
      (createPoolCluster original,
       debug "MysqlPlugin#patch: patched mysql createPoolCluster" st)
  | _patchGetConnection pool =>
      (getConnection pool original,
       debug "MysqlPlugin#patch: patched mysql pool getConnection" st)
  | _patchQuery connection =>
      (query connection original,
       debug "MysqlPlugin: patched mysql query" st)
  | _patchCallbackQuery span =>
      (callbackQuery span original, st)
  end.

(** [shimmer.wrap(nodule, name, wrapper)] (package [shimmer]): nothing
    happens (but a message on the console) unless [nodule[name]] is a
    function; otherwise the wrapper is applied to it, the result is marked
    and stored at [nodule[name]].  There is no test of an existing mark:
    wrapping a wrapped function adds a layer.  Only heap objects carry
    properties here. *)
Definition shimmer_wrap (nodule : val) (nm : string) (w : wrapper) (st : state)
  : state :=
  match nodule with
  | VObj l =>
      match lookup_prop (heap st) l nm with
      | Some (VFun original) =>
          let '(c, st1) := apply_wrapper w original st in
          let uid := next_uid st1 in
          set_heap
            (set_prop l nm (VFun (Wrapped uid (TObj l nm) original c)) (heap st1))
            (set_next_uid (S uid) st1)
      | _ => st
      end
  | _ => st
  end.

(** [shimmer.wrap(arguments, i, wrapper)] *)
Definition shimmer_wrap_arguments (args : list val) (i : nat) (w : wrapper)
    (st : state) : list val * state :=
  match args !! i with
  | Some (VFun original) =>
      let '(c, st1) := apply_wrapper w original st in
      let uid := next_uid st1 in
      (<[i := VFun (Wrapped uid (TArguments i) original c)]> args,
       set_next_uid (S uid) st1)
  | _ => (args, st)
  end.

(** [shimmer.unwrap(nodule, name)]: when [nodule[name]] carries
    [__unwrap], run it; [__unwrap] puts the original back where the
    function was installed, if it is still the function installed there. *)
Definition shimmer_unwrap (nodule : val) (nm : string) (st : state) : state :=
  match nodule with
  | VObj l =>
      match lookup_prop (heap st) l nm with
      | Some (VFun (Wrapped uid (TObj l' nm') original _)) =>
          match lookup_prop (heap st) l' nm' with
          | Some (VFun (Wrapped uid' _ _ _)) =>
              if Nat.eqb uid' uid
              then set_heap (set_prop l' nm' (VFun original) (heap st)) st
              else st
          | _ => st
          end
      | _ => st
      end
  | _ => st
  end.

(** [emitter.on(ev, f)] of Node's [EventEmitter]: register the listener,
    return the emitter.  A TypeError on anything that is not an emitter. *)
Definition on (v : val) (ev : string) (f : fn) (st : state)
  : option (val * state) :=
  match v with
  | VObj l =>
      match heap st !! l with
      | Some o =>
          if emitter o then
            Some (VObj l,
                  set_heap (<[l := {| props := props o; emitter := true;
                                      listeners := listeners o ++ [(ev, f)] |}]>
                              (heap st)) st)
          else None
      | None => None
      end
  | _ => None
  end.

(** ** Collaborators of [./utils] *)

(** The text of a query given as a string, or as a [Query] or
    [QueryOptions] object (its [sql]). *)
Definition query_text (h : gmap loc obj) (q : val) : string :=
  match q with
  | VStr s => s
  | VObj l =>
      match lookup_prop h l "sql" with
      | Some (VStr s) => s
      | _ => EmptyString
      end
  | _ => EmptyString
  end.

(** Modelled from the spec: [getDbStatement] of [./utils], which is not
    among the sources.  The statement is the query text rendered against
    the bind values with the formatting function when values were
    supplied, and the query text otherwise. *)
Definition getDbStatement (h : gmap loc obj) (q : val)
    (format : string -> list val -> string) (values : option (list val))
  : val :=
  match values with
  | Some vs => VStr (format (query_text h q) vs)
  | None => VStr (query_text h q)
  end.

(** The declared type of the first parameter of [query],
    [string | Query | QueryOptions]: a string, or an object whose [sql]
    is a string.  The functions of [./utils] are only known on such a
    query. *)
Definition is_query (h : gmap loc obj) (q : val) : bool :=
  match q with
  | VStr _ => true
  | VObj l =>
      match lookup_prop h l "sql" with
      | Some (VStr _) => true
      | _ => false
      end
  | _ => false
  end.

Section Plugin.

(** The driver and the application: what the native function [id] does
    to the store when called, and what it returns. *)
Variable driver :
  nat -> val -> list val -> gmap loc obj -> val * gmap loc obj.

(** [this._moduleExports.format], the driver's formatting function. *)
Variable format : string -> list val -> string.

(** [getSpanName] and [getConnectionAttributes] of [./utils]. *)
Variable getSpanName : gmap loc obj -> val -> val.
Variable getConnectionAttributes : gmap loc obj -> val -> list (string * val).

(** The [values] that [query] hands to [getDbStatement]: the second
    argument when [Array.isArray] holds of it; otherwise, when
    [arguments[2]] is truthy, the array holding the second argument;
    otherwise [undefined]. *)
Definition query_values (args : list val) : option (list val) :=
  match arg 1 args with
  | VArr vs => Some vs
  | v => if truthy (arg 2 args) then Some [v] else None
  end.

(** The first part of the body of [query] when enabled: start the span
    and set its statement attribute. *)
Definition query_startSpan (connection : val) (args : list val) (st : state)
  : option (nat * state) :=
  config ← get_prop (heap st) connection "config";
  let '(span, st1) :=
    startSpan (getSpanName (heap st) (arg 0 args)) SpanKind.CLIENT
      (COMMON_ATTRIBUTES ++ getConnectionAttributes (heap st) config) st in
  Some (span,
        setAttribute span DB_STATEMENT
          (getDbStatement (heap st1) (arg 0 args) format (query_values args))
          st1).

(** The callback-shaped part of [query]: wrap the callback in place. *)
Definition query_wrap_callback (span : nat) (args : list val) (st : state)
  : list val * state :=
  if is_function (arg 1 args) then
    shimmer_wrap_arguments args 1 (_patchCallbackQuery span) st
  else if is_function (arg 2 args) then
    shimmer_wrap_arguments args 2 (_patchCallbackQuery span) st
  else (args, st).

(** The first part of the shim of [_getConnectionCallbackPatchFn]. *)
Definition getConnectionCallback_wrap (args : list val) (st : state)
  : option state :=
  if truthy (arg 1 args) then
    q ← get_prop (heap st) (arg 1 args) "query";
    if negb (isWrapped q) then
      Some (shimmer_wrap (arg 1 args) "query" (_patchQuery (arg 1 args)) st)
    else Some st
  else Some st.

(** The status the shim of [_patchCallbackQuery] sets. *)
Definition callbackQuery_setStatus (span : nat) (args : list val) (st : state)
  : option state :=
  if truthy (arg 0 args) then
    m ← get_prop (heap st) (arg 0 args) "message";
    Some (setStatus span {| code_ := CanonicalCode.UNKNOWN; message := m |} st)
  else
    Some (setStatus span
            {| code_ := CanonicalCode.OK; message := VUndefined |} st).

(** [f.apply(this, args)]: [None] is an uncaught TypeError. *)
Fixpoint call (f : fn) (this : val) (args : list val) (st : state)
    {struct f} : option (val * state) :=
  match f with
  | Native id =>
      let '(r, h) := driver id this args (heap st) in
      Some (r, set_heap h (set_trace (trace st ++ [ECall id this args]) st))
  | Closure c | Wrapped _ _ _ c => run c args st
  end
with run (c : code) (args : list val) (st : state) {struct c}
    : option (val * state) :=
  match c with
  | createConnection originalCreateConnection =>
      '(originalResult, st1) ← call originalCreateConnection VUndefined args st;
      Some (originalResult,
            shimmer_wrap originalResult "query" (_patchQuery originalResult) st1)
  | createPool originalCreatePool =>
      '(pool, st1) ← call originalCreatePool VUndefined args st;
      let st2 := shimmer_wrap pool "query" (_patchQuery pool) st1 in
      Some (pool,
            shimmer_wrap pool "getConnection" (_patchGetConnection pool) st2)
  | createPoolCluster originalCreatePoolCluster =>
      '(cluster, st1) ← call originalCreatePoolCluster VUndefined args st;
      Some (cluster,
            shimmer_wrap cluster "getConnection" (_patchGetConnection cluster) st1)
  | getConnection pool originalGetConnection =>
      if negb (_enabled st) then
        call originalGetConnection pool args
          (shimmer_unwrap pool "getConnection" st)
      else if Nat.eqb (length args) 1 && is_function (arg 0 args) then
        let patchFn := VFun (Closure (getConnectionCallback (arg 0 args))) in
        call originalGetConnection pool [patchFn] st
      else if Nat.eqb (length args) 2 && is_function (arg 1 args) then
        let patchFn := VFun (Closure (getConnectionCallback (arg 1 args))) in
        call originalGetConnection pool [arg 0 args; patchFn] st
      else if Nat.eqb (length args) 3 && is_function (arg 2 args) then
        let patchFn := VFun (Closure (getConnectionCallback (arg 2 args))) in
        call originalGetConnection pool [arg 0 args; arg 1 args; patchFn] st
      else call originalGetConnection pool args st
  | getConnectionCallback cb =>
      st1 ← getConnectionCallback_wrap args st;
      match cb with
      | VFun g =>
          '(_, st2) ← call g VUndefined args st1;
          Some (VUndefined, st2)
      | _ => Some (VUndefined, st1)
      end
  | query connection originalQuery =>
      if negb (_enabled st) then
        call originalQuery connection args
          (shimmer_unwrap connection "query" st)
      else
        '(span, st1) ← query_startSpan connection args st;
        if Nat.eqb (length args) 1 then
          '(streamableQuery, st2) ← call originalQuery connection args st1;
          '(s, st3) ← on streamableQuery "error" (Closure (streamError span)) st2;
          on s "end" (Closure (streamEnd span)) st3
        else
          let '(args', st2) := query_wrap_callback span args st1 in
          call originalQuery connection args' st2
  | callbackQuery span originalCallback =>
      st1 ← callbackQuery_setStatus span args st;
      call originalCallback VUndefined args (span_end span st1)
  | streamError span =>
      m ← get_prop (heap st) (arg 0 args) "message";
      Some (VSpan span,
            setStatus span
              {| code_ := CanonicalCode.UNKNOWN; message := m |} st)
  | streamEnd span =>
      Some (VUndefined, span_end span st)
  end.

(** [patch()] *)
Definition patch (st : state) : val * state :=
  let st := set_enabled true st in
  let st := shimmer_wrap (_moduleExports st) "createConnection"
              _patchCreateConnection st in
  let st := shimmer_wrap (_moduleExports st) "createPool"
              _patchCreatePool st in
  let st := shimmer_wrap (_moduleExports st) "createPoolCluster"
              _patchCreatePoolCluster st in
  (_moduleExports st, st).

(** [unpatch()] *)
Definition unpatch (st : state) : state :=
  let st := set_enabled false st in
  let st := shimmer_unwrap (_moduleExports st) "createConnection" st in
  let st := shimmer_unwrap (_moduleExports st) "createPool" st in
  shimmer_unwrap (_moduleExports st) "createPoolCluster" st.

(** [o.name(...args)]: a TypeError when [o[name]] is not a function. *)
Definition invoke (o : val) (nm : string) (args : list val) (st : state)
  : option (val * state) :=
  f ← get_prop (heap st) o nm;
  match f with
  | VFun g => call g o args st
  | _ => None
  end.

(** [emitter.emit(ev, ...args)] of Node's [EventEmitter]: the listeners
    registered for [ev] when the event is emitted are called in order
    of registration. *)
Definition emit (l : loc) (ev : string) (args : list val) (st : state)
  : option state :=
  match heap st !! l with
  | Some o =>
      foldl (fun acc f => st' ← acc; snd <$> call f (VObj l) args st')
        (Some st)
        (snd <$> List.filter (fun p => String.eqb (fst p) ev) (listeners o))
  | None => Some st
  end.

End Plugin.

(** ** Statement of the factories' frame property *)

(** The function literal that [_patchQuery] or [_patchGetConnection]
    returns for the method [nm] of the object at [l]. *)
Definition method_code (l : loc) (nm : string) (f : fn) : code :=
  if String.eqb nm "query" then query (VObj l) f
  else getConnection (VObj l) f.

(** [st2] is [st1] with wrapped methods attached to [r], for the method
    names in [names]: a method of [r] in [names] that was a function is
    now a wrap of that function, and nothing else differs in the store,
    the tracer, the trace or the flag. *)
Definition attached (r : val) (names : list string) (st1 st2 : state) : Prop :=
  _enabled st2 = _enabled st1
  ∧ _moduleExports st2 = _moduleExports st1
  ∧ _tracer st2 = _tracer st1
  ∧ trace st2 = trace st1
  ∧ (∀ l, emitter <$> heap st2 !! l = emitter <$> heap st1 !! l)
  ∧ (∀ l, listeners <$> heap st2 !! l = listeners <$> heap st1 !! l)
  ∧ (∀ l nm, r ≠ VObj l ∨ nm ∉ names ->
       lookup_prop (heap st2) l nm = lookup_prop (heap st1) l nm)
  ∧ (∀ l nm, r = VObj l -> nm ∈ names ->
       (∃ f uid,
          lookup_prop (heap st1) l nm = Some (VFun f)
          ∧ lookup_prop (heap st2) l nm
            = Some (VFun (Wrapped uid (TObj l nm) f (method_code l nm f))))
       ∨ (is_function (default VUndefined (lookup_prop (heap st1) l nm)) = false
          ∧ lookup_prop (heap st2) l nm = lookup_prop (heap st1) l nm)).

(** ** Stacks of wraps *)

(** The method [nm] of the object at [l] after wraps installed in place
    one after the other around [orig], as repeated calls of
    [shimmer.wrap] leave it; [uids] are the identities of the layers,
    the outermost first. *)
Fixpoint wraps (l : loc) (nm : string) (orig : fn) (uids : list nat) : fn :=
  match uids with
  | [] => orig
  | uid :: rest =>
      Wrapped uid (TObj l nm) (wraps l nm orig rest)
        (method_code l nm (wraps l nm orig rest))
  end.

(** The three exports that [patch()] wraps. *)
Definition factories : list string :=
  ["createConnection"; "createPool"; "createPoolCluster"].

(** ** Statements of invariants *)

(** What every call keeps: the flag and the module are as before, and
    no span is removed. *)
Definition keeps (st st' : state) : Prop :=
  _enabled st' = _enabled st
  ∧ _moduleExports st' = _moduleExports st
  ∧ length (_tracer st) <= length (_tracer st').

(** [st'] differs from [st] in the store at most in the properties
    [names] of the object at [m]; the tracer and the trace are the
    same. *)
Definition touches_only (m : loc) (names : list string) (st st' : state)
  : Prop :=
  _tracer st' = _tracer st
  ∧ trace st' = trace st
  ∧ (∀ l, emitter <$> heap st' !! l = emitter <$> heap st !! l)
  ∧ (∀ l, listeners <$> heap st' !! l = listeners <$> heap st !! l)
  ∧ (∀ l nm, l ≠ m ∨ nm ∉ names ->
       lookup_prop (heap st') l nm = lookup_prop (heap st) l nm).

(** ** A small driver, used to run the plugin on concrete calls *)

Module Sample.

(** Native functions: the exports of the module (1 to 4), the methods
    of the objects it makes (10, 11), and the application's callbacks
    (20 and above). *)
Definition connection_obj : obj :=
  {| props := {[ "query" := VFun (Native 10);
                 "config" := VObj 0 ]};
     emitter := true; listeners := [] |}.

Definition pool_obj : obj :=
  {| props := {[ "query" := VFun (Native 10);
                 "getConnection" := VFun (Native 11);
                 "config" := VObj 0 ]};
     emitter := true; listeners := [] |}.

Definition cluster_obj : obj :=
  {| props := {[ "getConnection" := VFun (Native 11) ]};
     emitter := true; listeners := [] |}.

Definition stream_obj : obj :=
  {| props := ∅; emitter := true; listeners := [] |}.

(** The sample driver makes one connection, pool or cluster, at
    location 2, and returns its streams at location 3. *)
Definition alloc (l : loc) (o : obj) (h : gmap loc obj) : val * gmap loc obj :=
  (VObj l, <[l := o]> h).

Definition driver (id : nat) (this : val) (args : list val)
    (h : gmap loc obj) : val * gmap loc obj :=
  match id with
  | 1 => alloc 2 connection_obj h
  | 2 => alloc 2 pool_obj h
  | 3 => alloc 2 cluster_obj h
  | 10 => alloc 3 stream_obj h
  | _ => (VUndefined, h)
  end.

(** A formatting function in the manner of the driver's: each [?] is
    replaced by the next value. *)
Definition escape (v : val) : string :=
  match v with
  | VNum z => pretty z
  | VStr s => "'" +:+ s +:+ "'"
  | VBool true => "true"
  | VBool false => "false"
  | _ => "NULL"
  end.

Fixpoint format (sql : string) (values : list val) : string :=
  match sql with
  | EmptyString => EmptyString
  | String c rest =>
      if Ascii.eqb c "?"%char then
        match values with
        | v :: vs => escape v +:+ format rest vs
        | [] => String c (format rest [])
        end
      else String c (format rest values)
  end.

Definition getSpanName (h : gmap loc obj) (q : val) : val :=
  VStr (query_text h q).

Definition getConnectionAttributes (h : gmap loc obj) (config : val)
  : list (string * val) := [].

Definition module_obj : obj :=
  {| props := {[ "createConnection" := VFun (Native 1);
                 "createPool" := VFun (Native 2);
                 "createPoolCluster" := VFun (Native 3);
                 "format" := VFun (Native 4) ]};
     emitter := false; listeners := [] |}.

(** The plugin as constructed, before [patch()]: the module at
    location 1, a configuration record at location 0. *)
Definition init : state :=
  {| _enabled := false; _moduleExports := VObj 1; _logger := [];
     _tracer := [];
     heap := {[ 0 := {| props := ∅; emitter := false; listeners := [] |};
                1 := module_obj ]};
     next_uid := 0; trace := [] |}.

(** The plugin run on that driver. *)
Abbreviation call := (call driver format getSpanName getConnectionAttributes).
Abbreviation invoke :=
  (invoke driver format getSpanName getConnectionAttributes).
Abbreviation emit := (emit driver format getSpanName getConnectionAttributes).

Definition state_after (r : option (val * state)) : state :=
  match r with Some (_, st) => st | None => init end.

(** After [patch()]. *)
Definition active : state := snd (patch init).

(** After [createConnection('mysql://localhost/db')]: the connection is
    at location 2. *)
Definition connected : state :=
  state_after
    (invoke (VObj 1) "createConnection" [VStr "mysql://localhost/db"] active).

(** After [createPool('mysql://localhost/db')]: the pool is at
    location 2. *)
Definition pooled : state :=
  state_after
    (invoke (VObj 1) "createPool" [VStr "mysql://localhost/db"] active).

(** After a second [patch()] and then
    [createConnection('mysql://localhost/db')]: the connection at
    location 2 has its [query] wrapped twice. *)
Definition rewrapped : state :=
  state_after
    (invoke (VObj 1) "createConnection" [VStr "mysql://localhost/db"]
       (snd (patch active))).

End Sample.

Section Facts.

(** The driver and the application: what the native function [id] does
    to the store when called, and what it returns. *)
Variable driver :
  nat -> val -> list val -> gmap loc obj -> val * gmap loc obj.

(** [this._moduleExports.format], the driver's formatting function. *)
Variable format : string -> list val -> string.

(** [getSpanName] and [getConnectionAttributes] of [./utils]. *)
Variable getSpanName : gmap loc obj -> val -> val.
Variable getConnectionAttributes : gmap loc obj -> val -> list (string * val).

Local Abbreviation call := (call driver format getSpanName getConnectionAttributes).
Local Abbreviation run := (run driver format getSpanName getConnectionAttributes).
Local Abbreviation invoke :=
  (invoke driver format getSpanName getConnectionAttributes).
Local Abbreviation emit := (emit driver format getSpanName getConnectionAttributes).
Local Abbreviation query_startSpan :=
  (query_startSpan format getSpanName getConnectionAttributes).

(** ** Basic facts *)

Lemma call_Closure c this args st :
  call (Closure c) this args st = run c args st.
Proof. reflexivity. Qed.

Lemma call_Wrapped uid t original c this args st :
  call (Wrapped uid t original c) this args st = run c args st.
Proof. reflexivity. Qed.

Lemma call_Native id this args st :
  call (Native id) this args st =
  Some (fst (driver id this args (heap st)),
        set_heap (snd (driver id this args (heap st)))
          (set_trace (trace st ++ [ECall id this args]) st)).
Proof. cbn. now destruct (driver id this args (heap st)). Qed.

(** The equations of [run], one for each function literal. *)

Lemma run_createConnection orig args st :
  run (createConnection orig) args st =
  '(originalResult, st1) ← call orig VUndefined args st;
  Some (originalResult,
        shimmer_wrap originalResult "query" (_patchQuery originalResult) st1).
Proof. reflexivity. Qed.

Lemma run_createPool orig args st :
  run (createPool orig) args st =
  '(pool, st1) ← call orig VUndefined args st;
  Some (pool,
        shimmer_wrap pool "getConnection" (_patchGetConnection pool)
          (shimmer_wrap pool "query" (_patchQuery pool) st1)).
Proof. reflexivity. Qed.

Lemma run_createPoolCluster orig args st :
  run (createPoolCluster orig) args st =
  '(cluster, st1) ← call orig VUndefined args st;
  Some (cluster,
        shimmer_wrap cluster "getConnection" (_patchGetConnection cluster) st1).
Proof. reflexivity. Qed.

Lemma run_disabled_getConnection pool orig args st :
  _enabled st = false ->
  run (getConnection pool orig) args st =
  call orig pool args (shimmer_unwrap pool "getConnection" st).
Proof. intros H. cbn [run]. now rewrite H. Qed.

Lemma run_disabled_query connection orig args st :
  _enabled st = false ->
  run (query connection orig) args st =
  call orig connection args (shimmer_unwrap connection "query" st).
Proof. intros H. cbn [run]. now rewrite H. Qed.

Lemma run_enabled_query connection orig args st span st1 :
  _enabled st = true ->
  query_startSpan connection args st = Some (span, st1) ->
  run (query connection orig) args st =
  if Nat.eqb (length args) 1 then
    '(streamableQuery, st2) ← call orig connection args st1;
    '(s, st3) ← on streamableQuery "error" (Closure (streamError span)) st2;
    on s "end" (Closure (streamEnd span)) st3
  else
    let '(args', st2) := query_wrap_callback span args st1 in
    call orig connection args' st2.
Proof. intros H E. cbn [run]. rewrite H, E. reflexivity. Qed.

Lemma run_getConnectionCallback cb args st :
  run (getConnectionCallback cb) args st =
  st1 ← getConnectionCallback_wrap args st;
  match cb with
  | VFun g => '(_, st2) ← call g VUndefined args st1; Some (VUndefined, st2)
  | _ => Some (VUndefined, st1)
  end.
Proof. reflexivity. Qed.

Lemma run_callbackQuery span orig args st :
  run (callbackQuery span orig) args st =
  st1 ← callbackQuery_setStatus span args st;
  call orig VUndefined args (span_end span st1).
Proof. reflexivity. Qed.

Lemma truthy_get_prop h v nm :
  truthy v = true -> is_Some (get_prop h v nm).
Proof. destruct v; simpl; try discriminate; eauto. Qed.

Lemma update_span_lookup id f st s :
  _tracer st !! id = Some s ->
  update_span id f st = set_tracer (<[id := f s]> (_tracer st)) st.
Proof. intros H. unfold update_span. now rewrite H. Qed.

Lemma setStatus_open id s' st s :
  _tracer st !! id = Some s -> ends s = 0 ->
  setStatus id s' st = set_tracer (<[id := with_status s' s]> (_tracer st)) st.
Proof.
  intros H E. unfold setStatus. rewrite (update_span_lookup _ _ _ _ H).
  now rewrite E.
Qed.

Lemma span_end_lookup id st s :
  _tracer st !! id = Some s ->
  span_end id st = set_tracer (<[id := ended s]> (_tracer st)) st.
Proof. apply update_span_lookup. Qed.

Lemma startSpan_setAttribute nm k attrs key v st :
  setAttribute (length (_tracer st)) key v (snd (startSpan nm k attrs st)) =
  set_tracer
    (_tracer st ++
       [{| name := nm; kind := k; attributes := attrs ++ [(key, v)];
           status := {| code_ := CanonicalCode.OK; message := VUndefined |};
           ends := 0 |}]) st.
Proof.
  unfold setAttribute, startSpan, update_span. simpl.
  rewrite list_lookup_middle by reflexivity. simpl.
  unfold set_tracer. simpl. f_equal.
  replace (length (_tracer st)) with (length (_tracer st) + 0) by lia.
  now rewrite insert_app_r.
Qed.

(** [query_startSpan] never throws on a heap object, and adds exactly
    one open span with status [OK]. *)
Lemma query_startSpan_obj l args st :
  query_startSpan (VObj l) args st =
  Some (length (_tracer st),
        set_tracer
          (_tracer st ++
             [{| name := getSpanName (heap st) (arg 0 args);
                 kind := SpanKind.CLIENT;
                 attributes :=
                   (COMMON_ATTRIBUTES ++
                      getConnectionAttributes (heap st)
                        (default VUndefined (lookup_prop (heap st) l "config")))
                   ++ [(DB_STATEMENT,
                        getDbStatement (heap st) (arg 0 args) format
                          (query_values args))];
                 status := {| code_ := CanonicalCode.OK;
                              message := VUndefined |};
                 ends := 0 |}]) st).
Proof.
  unfold query_startSpan. cbn [get_prop mbind option_bind].
  unfold startSpan at 1. do 2 f_equal.
  apply (startSpan_setAttribute _ _ _ _ _ st).
Qed.

Lemma arg_lookup i args v : args !! i = Some v -> arg i args = v.
Proof. intros H. unfold arg. now rewrite H. Qed.

Lemma callbackQuery_setStatus_total span args st :
  callbackQuery_setStatus span args st =
  Some (setStatus span
          (if truthy (arg 0 args)
           then {| code_ := CanonicalCode.UNKNOWN;
                   message := default VUndefined
                                (get_prop (heap st) (arg 0 args) "message") |}
           else {| code_ := CanonicalCode.OK; message := VUndefined |}) st).
Proof.
  unfold callbackQuery_setStatus.
  destruct (truthy (arg 0 args)) eqn:E; [|reflexivity].
  destruct (truthy_get_prop (heap st) _ "message" E) as [m Hm].
  now rewrite Hm.
Qed.

(** The shim of [_patchCallbackQuery] on an open span: set the status
    from the error argument, end the span, then call the original
    callback with the same arguments. *)
Lemma callbackQuery_shim span cb args st sp :
  _tracer st !! span = Some sp -> ends sp = 0 ->
  run (callbackQuery span cb) args st =
  call cb VUndefined args
    (set_tracer
       (<[span := ended (with_status
            (if truthy (arg 0 args)
             then {| code_ := CanonicalCode.UNKNOWN;
                     message := default VUndefined
                                  (get_prop (heap st) (arg 0 args) "message") |}
             else {| code_ := CanonicalCode.OK; message := VUndefined |}) sp)]>
          (_tracer st)) st).
Proof.
  intros Hsp Hopen. rewrite run_callbackQuery.
  rewrite callbackQuery_setStatus_total. cbn [mbind option_bind].
  rewrite (setStatus_open _ _ _ _ Hsp Hopen).
  erewrite span_end_lookup.
  2:{ cbn. apply list_lookup_insert_eq. now apply lookup_lt_Some in Hsp. }
  cbn. now rewrite list_insert_insert_eq.
Qed.

(** ** Callback-shaped queries *)

(** C1. A query invocation with a function in the second or third
    argument position, while enabled, creates exactly one span (open,
    appended to the tracer's spans) and calls the original with the
    callback replaced in place by a shim.  The shim, on the open span,
    sets the status to [OK] if and only if its first argument is falsy,
    to [UNKNOWN] with the error's message otherwise, ends that one
    span, and then calls the caller's callback with the very arguments
    it received. *)
Theorem callback_query_span_lifecycle
    (uid : nat) (l : loc) (originalQuery : fn) (this : val)
    (args : list val) (st : state) (i : nat) (cb : fn) :
  _enabled st = true ->
  i = 1 ∨ (i = 2 ∧ is_function (arg 1 args) = false) ->
  args !! i = Some (VFun cb) ->
  let span := length (_tracer st) in
  let shim := Wrapped (next_uid st) (TArguments i) cb (callbackQuery span cb) in
  ∃ sp,
    call (Wrapped uid (TObj l "query") originalQuery
            (query (VObj l) originalQuery)) this args st
    = call originalQuery (VObj l) (<[i := VFun shim]> args)
        (set_next_uid (S (next_uid st))
           (set_tracer (_tracer st ++ [sp]) st))
    ∧ ends sp = 0
    ∧ ∀ this' cargs st2 sp2,
        _tracer st2 !! span = Some sp2 -> ends sp2 = 0 ->
        ∃ s',
          call shim this' cargs st2
          = call cb VUndefined cargs
              (set_tracer
                 (<[span := ended (with_status s' sp2)]> (_tracer st2)) st2)
          ∧ (code_ s' = CanonicalCode.OK ↔ truthy (arg 0 cargs) = false)
          ∧ (truthy (arg 0 cargs) = true ->
             s' = {| code_ := CanonicalCode.UNKNOWN;
                     message := default VUndefined
                       (get_prop (heap st2) (arg 0 cargs) "message") |}).
Proof.
  intros Hen Hi Hcb span shim.
  eexists. split; [|split].
  - cbn [call run]. rewrite Hen. cbn [negb].
    rewrite query_startSpan_obj. cbn [mbind option_bind].
    assert (Hlen : Nat.eqb (length args) 1 = false).
    { apply Nat.eqb_neq. apply lookup_lt_Some in Hcb.
      destruct Hi as [-> | [-> _]]; lia. }
    rewrite Hlen. unfold query_wrap_callback.
    destruct Hi as [-> | [-> H1]].
    + rewrite (arg_lookup _ _ _ Hcb). cbn [is_function].
      unfold shimmer_wrap_arguments. rewrite Hcb. reflexivity.
    + rewrite H1, (arg_lookup _ _ _ Hcb). cbn [is_function].
      unfold shimmer_wrap_arguments. rewrite Hcb. reflexivity.
  - reflexivity.
  - intros this' cargs st2 sp2 Hsp Hopen.
    eexists. split; [|split].
    + unfold shim. cbn [call]. apply (callbackQuery_shim _ _ _ _ _ Hsp Hopen).
    + destruct (truthy (arg 0 cargs)); cbn; split; congruence.
    + intros ->. reflexivity.
Qed.

(** ** Streaming queries *)

Lemma streamError_run span args st sp m :
  _tracer st !! span = Some sp -> ends sp = 0 ->
  get_prop (heap st) (arg 0 args) "message" = Some m ->
  run (streamError span) args st =
  Some (VSpan span,
        set_tracer
          (<[span := with_status
               {| code_ := CanonicalCode.UNKNOWN; message := m |} sp]>
             (_tracer st)) st).
Proof.
  intros Hsp Hopen Hm. cbn [run]. rewrite Hm. cbn [mbind option_bind].
  now rewrite (setStatus_open _ _ _ _ Hsp Hopen).
Qed.

Lemma streamEnd_run span args st sp :
  _tracer st !! span = Some sp ->
  run (streamEnd span) args st =
  Some (VUndefined, set_tracer (<[span := ended sp]> (_tracer st)) st).
Proof. intros Hsp. cbn [run]. now rewrite (span_end_lookup _ _ _ Hsp). Qed.

Lemma insert_snoc_last {A} (l : list A) (x y : A) :
  <[length l := y]> (l ++ [x]) = l ++ [y].
Proof.
  replace (length l) with (length l + 0) by lia. now rewrite insert_app_r.
Qed.

Lemma on_emitter s ev f st o :
  heap st !! s = Some o -> emitter o = true ->
  on (VObj s) ev f st =
  Some (VObj s,
        set_heap (<[s := {| props := props o; emitter := true;
                            listeners := listeners o ++ [(ev, f)] |}]>
                    (heap st)) st).
Proof. intros H E. unfold on. now rewrite H, E. Qed.

Lemma emit_one l ev args st o f :
  heap st !! l = Some o ->
  snd <$> List.filter (fun p => String.eqb (fst p) ev) (listeners o) = [f] ->
  emit l ev args st = snd <$> call f (VObj l) args st.
Proof. intros H L. unfold emit. rewrite H, L. reflexivity. Qed.

(** C2. A single-argument query invocation, while enabled, on a driver
    that returns a fresh event emitter: one open span is created and two
    listeners are registered on the emitter.  The ['error'] listener
    sets the status of the open span to [UNKNOWN] with the error's
    message and leaves [ends] as it is; the ['end'] listener ends the
    span and leaves the status as it is.  So an ['error'] event sets the
    error status without ending the span, and a later ['end'] event ends
    it with that error status. *)
Theorem streaming_query_error_then_end
    (uid : nat) (l : loc) (id : nat) (this q : val) (st : state)
    (s : loc) (h' : gmap loc obj) (o : obj) :
  _enabled st = true ->
  driver id (VObj l) [q] (heap st) = (VObj s, h') ->
  h' !! s = Some o -> emitter o = true -> listeners o = [] ->
  let span := length (_tracer st) in
  let failed m := {| code_ := CanonicalCode.UNKNOWN; message := m |} in
  ∃ st1 sp,
    call (Wrapped uid (TObj l "query") (Native id) (query (VObj l) (Native id)))
      this [q] st = Some (VObj s, st1)
    ∧ _tracer st1 = _tracer st ++ [sp] ∧ ends sp = 0
    ∧ listeners <$> heap st1 !! s
      = Some [("error", Closure (streamError span));
              ("end", Closure (streamEnd span))]
    ∧ (∀ this' eargs st2 sp2 m,
         _tracer st2 !! span = Some sp2 -> ends sp2 = 0 ->
         get_prop (heap st2) (arg 0 eargs) "message" = Some m ->
         call (Closure (streamError span)) this' eargs st2
         = Some (VSpan span,
                 set_tracer
                   (<[span := with_status (failed m) sp2]> (_tracer st2)) st2))
    ∧ (∀ this' eargs st2 sp2,
         _tracer st2 !! span = Some sp2 ->
         call (Closure (streamEnd span)) this' eargs st2
         = Some (VUndefined,
                 set_tracer (<[span := ended sp2]> (_tracer st2)) st2))
    ∧ (∀ err m,
         get_prop (heap st1) err "message" = Some m ->
         ∃ st2 st3,
           emit s "error" [err] st1 = Some st2
           ∧ _tracer st2 = _tracer st ++ [with_status (failed m) sp]
           ∧ emit s "end" [] st2 = Some st3
           ∧ _tracer st3 = _tracer st ++ [ended (with_status (failed m) sp)]).
Proof.
  intros Hen Hdrv Hs Hem Hls span failed.
  eexists. eexists. split; [|split; [|split; [|split; [|split; [|split]]]]].
  - cbn [call run]. rewrite Hen. cbn [negb].
    rewrite query_startSpan_obj. cbn [mbind option_bind length Nat.eqb].
    cbn [call]. cbn [heap set_tracer]. rewrite Hdrv.
    cbn [mbind option_bind].
    erewrite on_emitter; [|exact Hs|exact Hem]. cbn [mbind option_bind].
    erewrite on_emitter; [|apply lookup_insert_eq|reflexivity].
    cbn [heap set_heap props listeners]. rewrite insert_insert_eq.
    reflexivity.
  - reflexivity.
  - reflexivity.
  - cbn [heap set_heap]. rewrite lookup_insert_eq. cbn. now rewrite Hls.
  - intros this' eargs st2 sp2 m Hsp Hopen Hm. cbn [call].
    apply (streamError_run _ _ _ _ _ Hsp Hopen Hm).
  - intros this' eargs st2 sp2 Hsp. cbn [call].
    apply (streamEnd_run _ eargs _ _ Hsp).
  - intros err m Hm. eexists. eexists.
    split; [|split; [|split]].
    + erewrite (emit_one _ _ _ _ _ (Closure (streamError span)));
        [|apply lookup_insert_eq|cbn [listeners]; rewrite Hls; reflexivity].
      rewrite call_Closure.
      erewrite streamError_run;
        [reflexivity|apply list_lookup_middle; reflexivity|reflexivity|exact Hm].
    + cbn [snd _tracer set_tracer]. apply insert_snoc_last.
    + erewrite (emit_one _ _ _ _ _ (Closure (streamEnd span)));
        [|apply lookup_insert_eq|cbn [listeners]; rewrite Hls; reflexivity].
      rewrite call_Closure. erewrite streamEnd_run; [reflexivity|].
      apply list_lookup_insert_eq.
      cbn [_tracer set_heap set_trace set_tracer]. rewrite length_app.
      cbn [length]. unfold span. lia.
    + cbn [snd _tracer set_tracer]. rewrite list_insert_insert_eq.
      apply insert_snoc_last.
Qed.

(** ** The store under [shimmer.wrap] and [shimmer.unwrap] *)

Lemma lookup_prop_set_prop_eq l nm v h :
  is_Some (h !! l) -> lookup_prop (set_prop l nm v h) l nm = Some v.
Proof.
  intros [o Ho]. unfold lookup_prop, set_prop. rewrite Ho.
  rewrite lookup_insert_eq. cbn. apply lookup_insert_eq.
Qed.

Lemma lookup_prop_set_prop_ne l nm v h l' nm' :
  l ≠ l' ∨ nm ≠ nm' ->
  lookup_prop (set_prop l nm v h) l' nm' = lookup_prop h l' nm'.
Proof.
  intros Hne. unfold lookup_prop, set_prop.
  destruct (h !! l) as [o|] eqn:Ho; [|reflexivity].
  destruct (decide (l = l')) as [<-|Hl].
  - rewrite lookup_insert_eq, Ho. cbn.
    destruct Hne as [Hne|Hne]; [congruence|]. now apply lookup_insert_ne.
  - now rewrite lookup_insert_ne.
Qed.

Lemma lookup_prop_is_Some h l nm v :
  lookup_prop h l nm = Some v -> is_Some (h !! l).
Proof. unfold lookup_prop. destruct (h !! l); [eauto|discriminate]. Qed.

Lemma set_prop_emitter l nm v h l' :
  emitter <$> set_prop l nm v h !! l' = emitter <$> h !! l'.
Proof.
  unfold set_prop. destruct (h !! l) as [o|] eqn:Ho; [|reflexivity].
  destruct (decide (l = l')) as [<-|Hl].
  - now rewrite lookup_insert_eq, Ho.
  - now rewrite lookup_insert_ne.
Qed.

Lemma set_prop_listeners l nm v h l' :
  listeners <$> set_prop l nm v h !! l' = listeners <$> h !! l'.
Proof.
  unfold set_prop. destruct (h !! l) as [o|] eqn:Ho; [|reflexivity].
  destruct (decide (l = l')) as [<-|Hl].
  - now rewrite lookup_insert_eq, Ho.
  - now rewrite lookup_insert_ne.
Qed.

(** [shimmer.wrap] either finds no function and does nothing, or installs
    one new layer around the function it finds. *)
Lemma shimmer_wrap_cases nodule nm w st :
  (shimmer_wrap nodule nm w st = st
   ∧ ∀ l, nodule = VObj l ->
       is_function (default VUndefined (lookup_prop (heap st) l nm)) = false)
  ∨ (∃ l original,
       nodule = VObj l
       ∧ lookup_prop (heap st) l nm = Some (VFun original)
       ∧ shimmer_wrap nodule nm w st
         = set_heap
             (set_prop l nm
                (VFun (Wrapped (next_uid st) (TObj l nm) original
                         (fst (apply_wrapper w original st))))
                (heap st))
             (set_next_uid (S (next_uid st))
                (snd (apply_wrapper w original st)))).
Proof.
  destruct nodule; try (left; split; [reflexivity|discriminate]).
  cbn [shimmer_wrap].
  destruct (lookup_prop (heap st) l nm) as [[]|] eqn:E;
    try (left; split; [reflexivity|intros ? [= <-]; now rewrite E]).
  right. exists l, f. split; [reflexivity|]. split; [exact E|].
  destruct w; reflexivity.
Qed.

Lemma apply_wrapper_frame w original st :
  _enabled (snd (apply_wrapper w original st)) = _enabled st
  ∧ _moduleExports (snd (apply_wrapper w original st)) = _moduleExports st
  ∧ _tracer (snd (apply_wrapper w original st)) = _tracer st
  ∧ trace (snd (apply_wrapper w original st)) = trace st
  ∧ heap (snd (apply_wrapper w original st)) = heap st
  ∧ next_uid (snd (apply_wrapper w original st)) = next_uid st.
Proof. destruct w; repeat split. Qed.

Lemma shimmer_wrap_frame nodule nm w st :
  _enabled (shimmer_wrap nodule nm w st) = _enabled st
  ∧ _moduleExports (shimmer_wrap nodule nm w st) = _moduleExports st
  ∧ _tracer (shimmer_wrap nodule nm w st) = _tracer st
  ∧ trace (shimmer_wrap nodule nm w st) = trace st.
Proof.
  destruct (shimmer_wrap_cases nodule nm w st)
    as [[-> _]|(l & f & _ & _ & ->)]; [repeat split|].
  destruct (apply_wrapper_frame w f st) as (? & ? & ? & ? & _).
  repeat split; assumption.
Qed.

Lemma shimmer_unwrap_frame nodule nm st :
  _enabled (shimmer_unwrap nodule nm st) = _enabled st
  ∧ _moduleExports (shimmer_unwrap nodule nm st) = _moduleExports st
  ∧ _tracer (shimmer_unwrap nodule nm st) = _tracer st
  ∧ trace (shimmer_unwrap nodule nm st) = trace st.
Proof. unfold shimmer_unwrap. repeat case_match; repeat split. Qed.

(** [shimmer.unwrap] on a method that is not wrapped does nothing. *)
Lemma shimmer_unwrap_not_wrapped nodule nm st :
  (∀ l, nodule = VObj l ->
     isWrapped (default VUndefined (lookup_prop (heap st) l nm)) = false) ->
  shimmer_unwrap nodule nm st = st.
Proof.
  intros H. destruct nodule; try reflexivity. cbn [shimmer_unwrap].
  specialize (H l eq_refl).
  destruct (lookup_prop (heap st) l nm) as [[]|]; try reflexivity.
  destruct f; try reflexivity. discriminate.
Qed.

(** [shimmer.unwrap] on a method wrapped in place puts the original back. *)
Lemma shimmer_unwrap_wrapped l nm st uid original c :
  lookup_prop (heap st) l nm
  = Some (VFun (Wrapped uid (TObj l nm) original c)) ->
  shimmer_unwrap (VObj l) nm st
  = set_heap (set_prop l nm (VFun original) (heap st)) st.
Proof.
  intros H. cbn [shimmer_unwrap]. rewrite H, H. now rewrite Nat.eqb_refl.
Qed.

(** ** Calls while disabled *)

Lemma update_span_frame id f st :
  _enabled (update_span id f st) = _enabled st
  ∧ length (_tracer (update_span id f st)) = length (_tracer st)
  ∧ heap (update_span id f st) = heap st
  ∧ trace (update_span id f st) = trace st.
Proof.
  unfold update_span. destruct (_tracer st !! id); cbn; repeat split.
  apply length_insert.
Qed.

Lemma getConnectionCallback_wrap_total args st :
  ∃ st1, getConnectionCallback_wrap args st = Some st1
       ∧ _enabled st1 = _enabled st
       ∧ _tracer st1 = _tracer st
       ∧ trace st1 = trace st.
Proof.
  unfold getConnectionCallback_wrap.
  destruct (truthy (arg 1 args)) eqn:E; [|eauto].
  destruct (truthy_get_prop (heap st) _ "query" E) as [q ->].
  cbn [mbind option_bind]. destruct (negb (isWrapped q)); [|eauto].
  eexists. split; [reflexivity|].
  destruct (shimmer_wrap_frame (arg 1 args) "query"
              (_patchQuery (arg 1 args)) st) as (? & _ & ? & ?).
  auto.
Qed.

(** No call made while the plugin is disabled starts a span or enables
    the plugin, whatever function is called. *)
Lemma disabled_no_span f :
  ∀ this args st r st',
    _enabled st = false -> call f this args st = Some (r, st') ->
    _enabled st' = false ∧ length (_tracer st') = length (_tracer st).
Proof.
  induction f using fn_mut with
    (P := fun v => ∀ g, v = VFun g -> ∀ this args st r st',
            _enabled st = false -> call g this args st = Some (r, st') ->
            _enabled st' = false ∧ length (_tracer st') = length (_tracer st))
    (P1 := fun c => ∀ args st r st',
            _enabled st = false -> run c args st = Some (r, st') ->
            _enabled st' = false ∧ length (_tracer st') = length (_tracer st));
    try (intros; discriminate).
  - (* VFun *) intros g [= <-]. exact IHf.
  - (* Native *) intros this args st r st' Hd H. rewrite call_Native in H.
    injection H as _ <-. auto.
  - (* Closure *) intros this args st r st' Hd H. eapply IHf; eauto.
  - (* Wrapped *) intros this args st r st' Hd H. eapply IHf0; eauto.
  - (* createConnection *) intros args st r st' Hd H.
    rewrite run_createConnection in H.
    destruct (call f VUndefined args st) as [[r1 st1]|] eqn:E; [|discriminate].
    cbn [mbind option_bind] in H. injection H as _ <-.
    destruct (IHf _ _ _ _ _ Hd E) as [H1 H2].
    destruct (shimmer_wrap_frame r1 "query" (_patchQuery r1) st1)
      as (-> & _ & -> & _). auto.
  - (* createPool *) intros args st r st' Hd H.
    rewrite run_createPool in H.
    destruct (call f VUndefined args st) as [[r1 st1]|] eqn:E; [|discriminate].
    cbn [mbind option_bind] in H. injection H as _ <-.
    destruct (IHf _ _ _ _ _ Hd E) as [H1 H2].
    destruct (shimmer_wrap_frame r1 "getConnection" (_patchGetConnection r1)
                (shimmer_wrap r1 "query" (_patchQuery r1) st1))
      as (-> & _ & -> & _).
    destruct (shimmer_wrap_frame r1 "query" (_patchQuery r1) st1)
      as (-> & _ & -> & _). auto.
  - (* createPoolCluster *) intros args st r st' Hd H.
    rewrite run_createPoolCluster in H.
    destruct (call f VUndefined args st) as [[r1 st1]|] eqn:E; [|discriminate].
    cbn [mbind option_bind] in H. injection H as _ <-.
    destruct (IHf _ _ _ _ _ Hd E) as [H1 H2].
    destruct (shimmer_wrap_frame r1 "getConnection" (_patchGetConnection r1) st1)
      as (-> & _ & -> & _). auto.
  - (* getConnection *) intros args st r st' Hd H.
    rewrite (run_disabled_getConnection _ _ _ _ Hd) in H.
    destruct (shimmer_unwrap_frame pool "getConnection" st) as (He & _ & Ht & _).
    destruct (IHf0 _ _ _ _ _ (eq_trans He Hd) H) as [H1 H2].
    split; [exact H1|]. now rewrite H2, Ht.
  - (* getConnectionCallback *) intros args st r st' Hd H.
    rewrite run_getConnectionCallback in H.
    destruct (getConnectionCallback_wrap_total args st)
      as (st1 & E & He & Ht & _).
    rewrite E in H. cbn [mbind option_bind] in H.
    destruct cb; try (injection H as _ <-; split; congruence).
    destruct (call f VUndefined args st1) as [[r2 st2]|] eqn:E2;
      [|discriminate].
    cbn [mbind option_bind] in H. injection H as _ <-.
    destruct (IHf f eq_refl _ _ _ _ _ (eq_trans He Hd) E2) as [H1 H2].
    split; [exact H1|]. now rewrite H2, Ht.
  - (* query *) intros args st r st' Hd H.
    rewrite (run_disabled_query _ _ _ _ Hd) in H.
    destruct (shimmer_unwrap_frame connection "query" st) as (He & _ & Ht & _).
    destruct (IHf0 _ _ _ _ _ (eq_trans He Hd) H) as [H1 H2].
    split; [exact H1|]. now rewrite H2, Ht.
  - (* callbackQuery *) intros args st r st' Hd H.
    rewrite run_callbackQuery in H.
    rewrite callbackQuery_setStatus_total in H. cbn [mbind option_bind] in H.
    unfold span_end, setStatus in H.
    match type of H with
    | call _ _ _ (update_span ?i ?g (update_span ?j ?k st)) = _ =>
        destruct (update_span_frame j k st) as (He1 & Hl1 & _);
        destruct (update_span_frame i g (update_span j k st)) as (He2 & Hl2 & _)
    end.
    eapply IHf in H; [|congruence].
    destruct H as [H1 H2]. split; [exact H1|]. congruence.
  - (* streamError *) intros args st r st' Hd H. cbn [run] in H.
    destruct (get_prop (heap st) (arg 0 args) "message"); [|discriminate].
    cbn [mbind option_bind] in H. injection H as _ <-.
    destruct (update_span_frame span
      (fun s => if Nat.eqb (ends s) 0
                then with_status
                       {| code_ := CanonicalCode.UNKNOWN; message := v |} s
                else s) st) as (He & Hl & _).
    split; [exact (eq_trans He Hd)|exact Hl].
  - (* streamEnd *) intros args st r st' Hd H. cbn [run] in H.
    injection H as _ <-.
    destruct (update_span_frame span ended st) as (He & Hl & _).
    split; [exact (eq_trans He Hd)|exact Hl].
Qed.

Lemma invoke_method l nm args st g :
  lookup_prop (heap st) l nm = Some (VFun g) ->
  invoke (VObj l) nm args st = call g (VObj l) args st.
Proof. intros H. unfold invoke. cbn [get_prop]. now rewrite H. Qed.

(** C4. While disabled, a call of a [query] or [getConnection] method
    that the plugin wrapped first puts the original method back on the
    object and then calls the original on that object with the arguments
    of the call: the result is the original's, no span is started, and
    later calls of the method reach the original directly. *)
Theorem disabled_call_unwraps_and_delegates
    (l : loc) (nm : string) (uid : nat) (orig : fn) (args : list val)
    (st : state) :
  _enabled st = false ->
  nm = "query" ∨ nm = "getConnection" ->
  lookup_prop (heap st) l nm
  = Some (VFun (Wrapped uid (TObj l nm) orig (method_code l nm orig))) ->
  let unwrapped := set_heap (set_prop l nm (VFun orig) (heap st)) st in
  invoke (VObj l) nm args st = call orig (VObj l) args unwrapped
  ∧ lookup_prop (heap unwrapped) l nm = Some (VFun orig)
  ∧ (∀ args', invoke (VObj l) nm args' unwrapped
              = call orig (VObj l) args' unwrapped)
  ∧ (∀ r st', invoke (VObj l) nm args st = Some (r, st') ->
              length (_tracer st') = length (_tracer st))
  ∧ (∀ id, orig = Native id ->
       invoke (VObj l) nm args st
       = Some (fst (driver id (VObj l) args (heap unwrapped)),
               set_heap (snd (driver id (VObj l) args (heap unwrapped)))
                 (set_trace (trace st ++ [ECall id (VObj l) args]) unwrapped))).
Proof.
  intros Hd Hnm Hw unwrapped.
  assert (Hinv : invoke (VObj l) nm args st
                 = call orig (VObj l) args unwrapped).
  { rewrite (invoke_method _ _ _ _ _ Hw), call_Wrapped.
    destruct Hnm as [-> | ->]; cbn [method_code String.eqb Ascii.eqb Bool.eqb].
    - rewrite (run_disabled_query _ _ _ _ Hd).
      now rewrite (shimmer_unwrap_wrapped _ _ _ _ _ _ Hw).
    - rewrite (run_disabled_getConnection _ _ _ _ Hd).
      now rewrite (shimmer_unwrap_wrapped _ _ _ _ _ _ Hw). }
  assert (Hl : lookup_prop (heap unwrapped) l nm = Some (VFun orig)).
  { apply lookup_prop_set_prop_eq. eapply lookup_prop_is_Some, Hw. }
  split; [exact Hinv|]. split; [exact Hl|]. split; [|split].
  - intros args'. apply (invoke_method _ _ _ _ _ Hl).
  - intros r st' H. rewrite Hinv in H.
    apply disabled_no_span in H; [|exact Hd]. apply H.
  - intros id ->. rewrite Hinv, call_Native. reflexivity.
Qed.

(** ** Acquired connections *)

(** C5. The shim given to the acquisition method, called with a
    connection object as second argument, wraps the connection's [query]
    only if it does not carry the marks of a wrap: on a marked method the
    shim changes nothing; on an unmarked function it installs one wrap
    around it; and once the shim has run, running it again for the same
    connection changes nothing, so the method never has a second wrap. *)
Theorem acquired_connection_wrapped_once
    (cb : val) (this : val) (args : list val) (st : state) (l : loc) :
  arg 1 args = VObj l ->
  let q := default VUndefined (lookup_prop (heap st) l "query") in
  ∃ st1,
    getConnectionCallback_wrap args st = Some st1
    ∧ call (Closure (getConnectionCallback cb)) this args st
      = match cb with
        | VFun g =>
            '(_, st2) ← call g VUndefined args st1; Some (VUndefined, st2)
        | _ => Some (VUndefined, st1)
        end
    ∧ (isWrapped q = true -> st1 = st)
    ∧ (isWrapped q = false ->
       st1 = shimmer_wrap (VObj l) "query" (_patchQuery (VObj l)) st)
    ∧ (∀ f, q = VFun f -> isWrapped q = false ->
         lookup_prop (heap st1) l "query"
         = Some (VFun (Wrapped (next_uid st) (TObj l "query") f
                         (query (VObj l) f))))
    ∧ (∀ args', arg 1 args' = VObj l ->
         getConnectionCallback_wrap args' st1 = Some st1).
Proof.
  intros Hconn q.
  assert (Hstep : ∀ a s, arg 1 a = VObj l ->
            getConnectionCallback_wrap a s
            = Some (if isWrapped (default VUndefined
                                    (lookup_prop (heap s) l "query"))
                    then s
                    else shimmer_wrap (VObj l) "query" (_patchQuery (VObj l)) s)).
  { intros a s Ha. unfold getConnectionCallback_wrap. rewrite Ha.
    cbn [truthy get_prop mbind option_bind].
    now destruct (isWrapped _). }
  eexists. split; [apply (Hstep _ _ Hconn)|]. fold q.
  split; [|split; [|split; [|split]]].
  - rewrite call_Closure, run_getConnectionCallback, (Hstep _ _ Hconn).
    reflexivity.
  - now intros ->.
  - now intros ->.
  - intros f Hq Hw. rewrite Hw.
    destruct (shimmer_wrap_cases (VObj l) "query" (_patchQuery (VObj l)) st)
      as [[_ Hn]|(l' & f' & [= <-] & Hf & ->)].
    + specialize (Hn l eq_refl). fold q in Hn. now rewrite Hq in Hn.
    + unfold q in Hq. rewrite Hf in Hq. injection Hq as ->.
      cbn [heap set_heap set_next_uid apply_wrapper fst snd debug set_logger].
      apply lookup_prop_set_prop_eq. eapply lookup_prop_is_Some, Hf.
  - intros args' Ha. rewrite (Hstep _ _ Ha).
    destruct (isWrapped q) eqn:Hw.
    + fold q. now rewrite Hw.
    + destruct (shimmer_wrap_cases (VObj l) "query" (_patchQuery (VObj l)) st)
        as [[E Hn]|(l' & f' & [= <-] & Hf & E)].
      * rewrite E. fold q. rewrite Hw. now rewrite E.
      * rewrite E. cbn [heap set_heap set_next_uid].
        rewrite lookup_prop_set_prop_eq
          by (cbn [apply_wrapper snd debug set_logger heap];
              eapply lookup_prop_is_Some, Hf).
        reflexivity.
Qed.

(** C8. An enabled acquisition call with one, two or three arguments,
    the last of which is a function, calls the original acquisition
    method on the pool with the same arguments except that the last one
    is replaced by a shim.  The shim, with whatever arguments it is
    called, calls the caller's callback with those very arguments (after
    wrapping the connection's [query] where needed, which touches neither
    the tracer nor the trace). *)
Theorem getConnection_replaces_trailing_callback
    (uid : nat) (l : loc) (orig : fn) (this : val) (args : list val)
    (st : state) (cb : fn) :
  _enabled st = true ->
  1 <= length args <= 3 ->
  last args = Some (VFun cb) ->
  let shim := Closure (getConnectionCallback (VFun cb)) in
  call (Wrapped uid (TObj l "getConnection") orig (getConnection (VObj l) orig))
    this args st
  = call orig (VObj l) (<[pred (length args) := VFun shim]> args) st
  ∧ ∀ this' cargs st2,
      ∃ st3,
        getConnectionCallback_wrap cargs st2 = Some st3
        ∧ _tracer st3 = _tracer st2 ∧ trace st3 = trace st2
        ∧ call shim this' cargs st2
          = ('(_, st4) ← call cb VUndefined cargs st3; Some (VUndefined, st4)).
Proof.
  intros Hen Hlen Hlast shim. split.
  - rewrite call_Wrapped. cbn [run]. rewrite Hen. cbn [negb].
    destruct args as [|a [|b [|c [|]]]]; cbn in Hlen; try lia;
      cbn in Hlast; injection Hlast as ->; reflexivity.
  - intros this' cargs st2.
    destruct (getConnectionCallback_wrap_total cargs st2)
      as (st3 & E & _ & Ht & Htr).
    exists st3. repeat (split; [assumption|]).
    unfold shim. rewrite call_Closure, run_getConnectionCallback, E.
    reflexivity.
Qed.

(** C10. When the shim is called without a connection (its second
    argument is falsy), it wraps nothing and calls the caller's callback
    with the very arguments it received.  Whatever the arguments, success
    or failure, the caller's callback is called exactly once by each call
    of the shim: the trace grows by that one call. *)
Theorem acquisition_failure_forwards_once
    (cb : fn) (this : val) (args : list val) (st : state) :
  truthy (arg 1 args) = false ->
  let shim := Closure (getConnectionCallback (VFun cb)) in
  getConnectionCallback_wrap args st = Some st
  ∧ call shim this args st
    = ('(_, st2) ← call cb VUndefined args st; Some (VUndefined, st2))
  ∧ (∀ id, cb = Native id ->
       call shim this args st
       = Some (VUndefined,
               set_heap (snd (driver id VUndefined args (heap st)))
                 (set_trace (trace st ++ [ECall id VUndefined args]) st)))
  ∧ (∀ id args' st',
       ∃ st1,
         getConnectionCallback_wrap args' st' = Some st1
         ∧ trace st1 = trace st'
         ∧ call (Closure (getConnectionCallback (VFun (Native id))))
             this args' st'
           = Some (VUndefined,
                   set_heap (snd (driver id VUndefined args' (heap st1)))
                     (set_trace (trace st' ++ [ECall id VUndefined args'])
                        st1))).
Proof.
  intros Hno shim.
  assert (Hw : getConnectionCallback_wrap args st = Some st).
  { unfold getConnectionCallback_wrap. now rewrite Hno. }
  assert (Hcall : call shim this args st
                  = '(_, st2) ← call cb VUndefined args st;
                    Some (VUndefined, st2)).
  { unfold shim. now rewrite call_Closure, run_getConnectionCallback, Hw. }
  split; [exact Hw|]. split; [exact Hcall|]. split.
  - intros id ->. rewrite Hcall, call_Native. reflexivity.
  - intros id args' st'.
    destruct (getConnectionCallback_wrap_total args' st')
      as (st1 & E & _ & _ & Htr).
    exists st1. split; [exact E|]. split; [exact Htr|].
    rewrite call_Closure, run_getConnectionCallback, E.
    cbn [mbind option_bind]. rewrite call_Native. cbn [mbind option_bind].
    now rewrite Htr.
Qed.

(** ** Factories *)

Lemma shimmer_wrap_function l nm w st f :
  lookup_prop (heap st) l nm = Some (VFun f) ->
  shimmer_wrap (VObj l) nm w st
  = set_heap
      (set_prop l nm
         (VFun (Wrapped (next_uid st) (TObj l nm) f
                  (fst (apply_wrapper w f st))))
         (heap st))
      (set_next_uid (S (next_uid st)) (snd (apply_wrapper w f st))).
Proof.
  intros H. cbn [shimmer_wrap]. rewrite H. destruct w; reflexivity.
Qed.

Lemma shimmer_wrap_attached r nm w st :
  (nm = "query" ∧ w = _patchQuery r)
  ∨ (nm = "getConnection" ∧ w = _patchGetConnection r) ->
  attached r [nm] st (shimmer_wrap r nm w st).
Proof.
  intros Hw.
  destruct (shimmer_wrap_frame r nm w st) as (He & Hm & Ht & Htr).
  unfold attached. repeat (split; [assumption|]).
  destruct (shimmer_wrap_cases r nm w st)
    as [[E Hn]|(l & f & -> & Hf & E)]; rewrite E.
  - repeat (split; [reflexivity|]). intros l nm' -> Hin.
    apply list_elem_of_singleton in Hin as ->. right. split; [|reflexivity].
    now apply Hn.
  - cbn [heap set_heap set_next_uid].
    split; [intros; apply set_prop_emitter|].
    split; [intros; apply set_prop_listeners|].
    split.
    + intros l' nm' Hne. apply lookup_prop_set_prop_ne.
      destruct Hne as [Hne|Hne]; [left; congruence|right].
      intros ->. apply Hne. now apply list_elem_of_singleton.
    + intros l' nm' [= <-] Hin. apply list_elem_of_singleton in Hin as ->.
      left. exists f, (next_uid st). split; [exact Hf|].
      rewrite lookup_prop_set_prop_eq by (eapply lookup_prop_is_Some, Hf).
      destruct Hw as [[-> ->]|[-> ->]]; reflexivity.
Qed.

Lemma attached_query_getConnection r st1 st2 st3 :
  attached r ["query"] st1 st2 ->
  attached r ["getConnection"] st2 st3 ->
  attached r ["query"; "getConnection"] st1 st3.
Proof.
  intros (He & Hm & Ht & Htr & Hem & Hls & Hfr & Hat)
         (He' & Hm' & Ht' & Htr' & Hem' & Hls' & Hfr' & Hat').
  unfold attached.
  split; [congruence|]. split; [congruence|]. split; [congruence|].
  split; [congruence|].
  split; [intros l; now rewrite Hem'|].
  split; [intros l; now rewrite Hls'|].
  split.
  - intros l nm Hne. rewrite Hfr', Hfr; [reflexivity| |].
    + destruct Hne as [Hne|Hne]; [now left|right].
      intros Hin. apply Hne. apply list_elem_of_singleton in Hin as ->.
      apply list_elem_of_here.
    + destruct Hne as [Hne|Hne]; [now left|right].
      intros Hin. apply Hne. apply list_elem_of_singleton in Hin as ->.
      apply list_elem_of_further, list_elem_of_here.
  - intros l nm Hr Hin.
    apply elem_of_cons in Hin as [->|Hin].
    + rewrite (Hfr' l "query").
      * apply Hat; [exact Hr|apply list_elem_of_here].
      * right. intros Hin. apply list_elem_of_singleton in Hin. discriminate.
    + rewrite <- (Hfr l nm).
      * now apply Hat'.
      * right. intros Hq. apply list_elem_of_singleton in Hq as ->.
        apply list_elem_of_singleton in Hin. discriminate.
Qed.

(** C9. Each of the three wrapped factories calls the original factory
    with the arguments of the call, and returns the very value the
    original returned.  The state it leaves is the state the original
    left, with wrapped methods attached to the returned object: [query]
    for a connection, [query] and [getConnection] for a pool,
    [getConnection] for a cluster.  [attached] says that nothing else
    differs in the store, the tracer, the trace or the flag. *)
Theorem factories_delegate_and_attach
    (orig : fn) (uid : nat) (t : target) (this : val) (args : list val)
    (st : state) (r : val) (st1 : state) :
  call orig VUndefined args st = Some (r, st1) ->
  (∃ st2,
     call (Wrapped uid t orig (createConnection orig)) this args st
     = Some (r, st2)
     ∧ attached r ["query"] st1 st2)
  ∧ (∃ st2,
       call (Wrapped uid t orig (createPool orig)) this args st
       = Some (r, st2)
       ∧ attached r ["query"; "getConnection"] st1 st2)
  ∧ (∃ st2,
       call (Wrapped uid t orig (createPoolCluster orig)) this args st
       = Some (r, st2)
       ∧ attached r ["getConnection"] st1 st2)
  ∧ (∀ id, orig = Native id ->
       r = fst (driver id VUndefined args (heap st))
       ∧ trace st1 = trace st ++ [ECall id VUndefined args]).
Proof.
  intros Horig. split; [|split; [|split]].
  - eexists. split.
    + rewrite call_Wrapped, run_createConnection, Horig. reflexivity.
    + apply shimmer_wrap_attached. now left.
  - eexists. split.
    + rewrite call_Wrapped, run_createPool, Horig. reflexivity.
    + eapply attached_query_getConnection.
      * apply shimmer_wrap_attached. now left.
      * apply shimmer_wrap_attached. now right.
  - eexists. split.
    + rewrite call_Wrapped, run_createPoolCluster, Horig. reflexivity.
    + apply shimmer_wrap_attached. now right.
  - intros id ->. rewrite call_Native in Horig.
    injection Horig as <- <-. split; reflexivity.
Qed.

(** ** Activation *)

(** C6, as the code has it.  [patch()] sets the flag and wraps whatever
    function each of the three factory exports holds at that moment,
    marked or not: one layer around each, so on an unwrapped module it
    installs exactly one wrap per factory, and called again it adds a
    second layer.  [unpatch()] on a disabled plugin whose exports are not
    wrapped changes nothing, and [shimmer.unwrap] on a method that is
    not wrapped changes nothing. *)
Theorem activation_wraps_current_bindings
    (m : loc) (st : state) (f1 f2 f3 : fn) :
  _moduleExports st = VObj m ->
  lookup_prop (heap st) m "createConnection" = Some (VFun f1) ->
  lookup_prop (heap st) m "createPool" = Some (VFun f2) ->
  lookup_prop (heap st) m "createPoolCluster" = Some (VFun f3) ->
  let st' := snd (patch st) in
  fst (patch st) = VObj m
  ∧ _enabled st' = true
  ∧ lookup_prop (heap st') m "createConnection"
    = Some (VFun (Wrapped (next_uid st) (TObj m "createConnection") f1
                    (createConnection f1)))
  ∧ lookup_prop (heap st') m "createPool"
    = Some (VFun (Wrapped (S (next_uid st)) (TObj m "createPool") f2
                    (createPool f2)))
  ∧ lookup_prop (heap st') m "createPoolCluster"
    = Some (VFun (Wrapped (S (S (next_uid st))) (TObj m "createPoolCluster") f3
                    (createPoolCluster f3)))
  ∧ (_enabled st = false ->
     isWrapped (VFun f1) = false -> isWrapped (VFun f2) = false ->
     isWrapped (VFun f3) = false ->
     unpatch st = st)
  ∧ (∀ nodule nm st0,
       (∀ l, nodule = VObj l ->
          isWrapped (default VUndefined (lookup_prop (heap st0) l nm)) = false) ->
       shimmer_unwrap nodule nm st0 = st0).
Proof.
  intros Hm H1 H2 H3 st'.
  assert (Hsome : is_Some (heap st !! m)) by (eapply lookup_prop_is_Some, H1).
  unfold st', patch.
  cbn [_moduleExports set_enabled]. rewrite Hm.
  rewrite (shimmer_wrap_function m "createConnection" _ _ f1) by exact H1.
  cbn [apply_wrapper fst snd _moduleExports set_heap set_next_uid debug
       set_logger set_enabled]. rewrite Hm.
  rewrite (shimmer_wrap_function m "createPool" _ _ f2)
    by (cbn [heap set_heap set_next_uid set_logger set_enabled];
        rewrite lookup_prop_set_prop_ne by (right; discriminate); exact H2).
  cbn [apply_wrapper fst snd _moduleExports set_heap set_next_uid debug
       set_logger set_enabled heap next_uid]. rewrite Hm.
  rewrite (shimmer_wrap_function m "createPoolCluster" _ _ f3)
    by (cbn [heap set_heap set_next_uid set_logger set_enabled];
        rewrite !lookup_prop_set_prop_ne by (right; discriminate); exact H3).
  cbn [apply_wrapper fst snd _moduleExports _enabled set_heap set_next_uid
       debug set_logger set_enabled heap next_uid].
  split; [exact Hm|]. split; [reflexivity|].
  assert (Hs1 : ∀ nm v, is_Some (set_prop m nm v (heap st) !! m)).
  { intros nm v. destruct Hsome as [o Ho]. unfold set_prop. rewrite Ho.
    rewrite lookup_insert_eq. eauto. }
  assert (Hs2 : ∀ nm v nm' v',
            is_Some (set_prop m nm' v' (set_prop m nm v (heap st)) !! m)).
  { intros nm v nm' v'. destruct (Hs1 nm v) as [o Ho]. unfold set_prop at 1.
    rewrite Ho. rewrite lookup_insert_eq. eauto. }
  split; [|split; [|split; [|split]]].
  - rewrite !lookup_prop_set_prop_ne by (right; discriminate).
    now apply lookup_prop_set_prop_eq.
  - rewrite lookup_prop_set_prop_ne by (right; discriminate).
    now apply lookup_prop_set_prop_eq.
  - now apply lookup_prop_set_prop_eq.
  - intros Hd W1 W2 W3. unfold unpatch.
    cbn [_moduleExports set_enabled]. rewrite Hm.
    assert (E : set_enabled false st = st).
    { destruct st. cbn in Hd. now subst. }
    rewrite E.
    rewrite (shimmer_unwrap_not_wrapped (VObj m) "createConnection" st)
      by (intros l [= <-]; now rewrite H1).
    rewrite Hm.
    rewrite (shimmer_unwrap_not_wrapped (VObj m) "createPool" st)
      by (intros l [= <-]; now rewrite H2).
    rewrite Hm.
    apply shimmer_unwrap_not_wrapped. intros l [= <-]. now rewrite H3.
  - intros nodule nm st0. apply shimmer_unwrap_not_wrapped.
Qed.

(** ** The statement attribute *)

Lemma attribute_last key v attrs nm k st e :
  attribute key
    {| name := nm; kind := k; attributes := attrs ++ [(key, v)];
       status := st; ends := e |} = Some v.
Proof.
  unfold attribute. cbn [attributes]. rewrite List.filter_app.
  cbn [List.filter fst]. rewrite String.eqb_refl.
  now rewrite last_snoc.
Qed.

Lemma query_wrap_callback_tracer span args st :
  _tracer (snd (query_wrap_callback span args st)) = _tracer st.
Proof.
  unfold query_wrap_callback, shimmer_wrap_arguments.
  destruct (is_function (arg 1 args)).
  - destruct (args !! 1) as [[]|]; reflexivity.
  - destruct (is_function (arg 2 args)); [|reflexivity].
    destruct (args !! 2) as [[]|]; reflexivity.
Qed.

(** C7, as the code has it.  While enabled, for a query argument of its
    declared type, the span started for a query invocation carries a
    statement attribute equal to the query text rendered by the
    formatting function against the second argument when that argument
    is an array, and against the one-element collection holding the
    second argument when it is not an array and a truthy third argument
    is present.  The span is the one appended by this invocation, it is
    the last span when the call of the driver's method returns, and a
    call that is not a single-argument call does return. *)
Theorem statement_attribute_rendering
    (uid : nat) (l : loc) (id : nat) (this : val) (args : list val)
    (st : state) :
  _enabled st = true ->
  is_query (heap st) (arg 0 args) = true ->
  let text := query_text (heap st) (arg 0 args) in
  let wrapped :=
    Wrapped uid (TObj l "query") (Native id) (query (VObj l) (Native id)) in
  ∃ sp st1,
    query_startSpan (VObj l) args st = Some (length (_tracer st), st1)
    ∧ _tracer st1 = _tracer st ++ [sp]
    ∧ (∀ vs, arg 1 args = VArr vs ->
         attribute DB_STATEMENT sp = Some (VStr (format text vs)))
    ∧ ((∀ vs, arg 1 args ≠ VArr vs) -> truthy (arg 2 args) = true ->
       attribute DB_STATEMENT sp = Some (VStr (format text [arg 1 args])))
    ∧ (∀ r st', call wrapped this args st = Some (r, st') ->
                _tracer st' = _tracer st ++ [sp])
    ∧ (length args ≠ 1 -> is_Some (call wrapped this args st)).
Proof.
  intros Hen Hq text wrapped.
  eexists. eexists. split; [apply query_startSpan_obj|].
  split; [reflexivity|]. split; [|split; [|split]].
  - intros vs Hvs. rewrite attribute_last. f_equal.
    unfold getDbStatement, query_values, text. now rewrite Hvs.
  - intros Hna Ht. rewrite attribute_last. f_equal.
    unfold getDbStatement, query_values, text. rewrite Ht.
    destruct (arg 1 args); try reflexivity. now destruct (Hna elems).
  - intros r st'. unfold wrapped.
    rewrite call_Wrapped,
      (run_enabled_query _ _ _ _ _ _ Hen (query_startSpan_obj l args st)).
    destruct (Nat.eqb (length args) 1).
    + rewrite call_Native. cbn [mbind option_bind].
      intros H.
      match type of H with
      | context [on ?v "error" ?f ?s] =>
          destruct (on v "error" f s) as [[v1 s1]|] eqn:E1; [|discriminate];
          assert (T1 : _tracer s1 = _tracer s)
            by (unfold on in E1; repeat case_match; try discriminate;
                now injection E1 as _ <-)
      end.
      cbn [mbind option_bind] in H.
      assert (T2 : _tracer st' = _tracer s1)
        by (unfold on in H; repeat case_match; try discriminate;
            now injection H as _ <-).
      rewrite T2, T1. reflexivity.
    + destruct (query_wrap_callback _ args _) as [args' st2] eqn:E.
      rewrite call_Native. intros [= _ <-]. cbn [_tracer set_heap set_trace].
      apply (f_equal snd) in E. cbn [snd] in E. subst st2.
      apply query_wrap_callback_tracer.
  - intros Hlen. unfold wrapped.
    rewrite call_Wrapped,
      (run_enabled_query _ _ _ _ _ _ Hen (query_startSpan_obj l args st)).
    apply Nat.eqb_neq in Hlen. rewrite Hlen.
    destruct (query_wrap_callback _ args _) as [args' st2].
    rewrite call_Native. eauto.
Qed.

(** ** Further facts on the store *)

Lemma set_prop_id l nm v h :
  lookup_prop h l nm = Some v -> set_prop l nm v h = h.
Proof.
  unfold lookup_prop, set_prop. destruct (h !! l) as [o|] eqn:Ho; [|done].
  cbn. intros Hp. rewrite (insert_id _ _ _ Hp).
  apply insert_id. rewrite Ho. now destruct o.
Qed.

Lemma set_prop_set_prop l nm v v' h :
  set_prop l nm v (set_prop l nm v' h) = set_prop l nm v h.
Proof.
  unfold set_prop. destruct (h !! l) as [o|] eqn:Ho.
  - rewrite lookup_insert_eq. cbn. now rewrite !insert_insert_eq.
  - now rewrite Ho.
Qed.

Lemma set_prop_comm l nm1 nm2 v1 v2 h :
  nm1 ≠ nm2 ->
  set_prop l nm1 v1 (set_prop l nm2 v2 h)
  = set_prop l nm2 v2 (set_prop l nm1 v1 h).
Proof.
  intros Hne. unfold set_prop. destruct (h !! l) as [o|] eqn:Ho.
  - rewrite !lookup_insert_eq. cbn. rewrite !insert_insert_eq.
    now rewrite (insert_insert_ne (props o) nm1 nm2).
  - now rewrite !Ho.
Qed.

Lemma set_heap_id st : set_heap (heap st) st = st.
Proof. now destruct st. Qed.

(** ** [patch()] and [unpatch()] together *)

(** The state [patch()] leaves when the three exports hold functions. *)
Lemma patch_result m st f1 f2 f3 :
  _moduleExports st = VObj m ->
  lookup_prop (heap st) m "createConnection" = Some (VFun f1) ->
  lookup_prop (heap st) m "createPool" = Some (VFun f2) ->
  lookup_prop (heap st) m "createPoolCluster" = Some (VFun f3) ->
  heap (snd (patch st))
  = set_prop m "createPoolCluster"
      (VFun (Wrapped (S (S (next_uid st))) (TObj m "createPoolCluster") f3
               (createPoolCluster f3)))
      (set_prop m "createPool"
         (VFun (Wrapped (S (next_uid st)) (TObj m "createPool") f2
                  (createPool f2)))
         (set_prop m "createConnection"
            (VFun (Wrapped (next_uid st) (TObj m "createConnection") f1
                     (createConnection f1)))
            (heap st)))
  ∧ _enabled (snd (patch st)) = true
  ∧ _moduleExports (snd (patch st)) = VObj m
  ∧ _tracer (snd (patch st)) = _tracer st
  ∧ trace (snd (patch st)) = trace st.
Proof.
  intros Hm H1 H2 H3. unfold patch.
  cbn [_moduleExports set_enabled]. rewrite Hm.
  rewrite (shimmer_wrap_function m "createConnection" _ _ f1) by exact H1.
  cbn [apply_wrapper fst snd _moduleExports set_heap set_next_uid debug
       set_logger set_enabled]. rewrite Hm.
  rewrite (shimmer_wrap_function m "createPool" _ _ f2)
    by (cbn [heap set_heap set_next_uid set_logger set_enabled];
        rewrite lookup_prop_set_prop_ne by (right; discriminate); exact H2).
  cbn [apply_wrapper fst snd _moduleExports set_heap set_next_uid debug
       set_logger set_enabled heap next_uid]. rewrite Hm.
  rewrite (shimmer_wrap_function m "createPoolCluster" _ _ f3)
    by (cbn [heap set_heap set_next_uid set_logger set_enabled];
        rewrite !lookup_prop_set_prop_ne by (right; discriminate); exact H3).
  cbn [apply_wrapper fst snd _moduleExports _enabled _tracer trace set_heap
       set_next_uid debug set_logger set_enabled heap next_uid].
  repeat split. exact Hm.
Qed.

Lemma set_prop_is_Some l nm v h l' :
  is_Some (h !! l') -> is_Some (set_prop l nm v h !! l').
Proof.
  intros [o Ho]. unfold set_prop. destruct (h !! l) as [o'|] eqn:E; [|eauto].
  destruct (decide (l = l')) as [<-|Hne].
  - rewrite lookup_insert_eq. eauto.
  - rewrite lookup_insert_ne by done. eauto.
Qed.

(** X1. Deactivation undoes activation: when the three exports of the
    module hold functions (wrapped or not), [unpatch()] after [patch()]
    leaves the store exactly as it was before [patch()], with the plugin
    disabled; the tracer and the trace are as they were. *)
Theorem unpatch_after_patch_restores
    (m : loc) (st : state) (f1 f2 f3 : fn) :
  _moduleExports st = VObj m ->
  lookup_prop (heap st) m "createConnection" = Some (VFun f1) ->
  lookup_prop (heap st) m "createPool" = Some (VFun f2) ->
  lookup_prop (heap st) m "createPoolCluster" = Some (VFun f3) ->
  let st' := unpatch (snd (patch st)) in
  heap st' = heap st
  ∧ _enabled st' = false
  ∧ _moduleExports st' = VObj m
  ∧ _tracer st' = _tracer st
  ∧ trace st' = trace st.
Proof.
  intros Hm H1 H2 H3.
  destruct (patch_result m st f1 f2 f3 Hm H1 H2 H3)
    as (Hh & _ & Hm' & Ht & Htr).
  assert (Hsome : is_Some (heap st !! m)) by (eapply lookup_prop_is_Some, H1).
  set (sp := snd (patch st)) in *. cbn zeta. unfold unpatch.
  cbn [_moduleExports set_enabled]. rewrite Hm'.
  erewrite (shimmer_unwrap_wrapped m "createConnection").
  2:{ cbn [heap set_enabled]. rewrite Hh.
      rewrite !lookup_prop_set_prop_ne by (right; discriminate).
      apply lookup_prop_set_prop_eq, Hsome. }
  cbn [_moduleExports set_heap set_enabled heap]. rewrite Hm'.
  erewrite (shimmer_unwrap_wrapped m "createPool").
  2:{ cbn [heap set_heap]. rewrite Hh.
      rewrite !lookup_prop_set_prop_ne by (right; discriminate).
      apply lookup_prop_set_prop_eq. now apply set_prop_is_Some. }
  cbn [_moduleExports set_heap set_enabled heap]. rewrite Hm'.
  erewrite (shimmer_unwrap_wrapped m "createPoolCluster").
  2:{ cbn [heap set_heap]. rewrite Hh.
      rewrite !lookup_prop_set_prop_ne by (right; discriminate).
      apply lookup_prop_set_prop_eq. now do 2 apply set_prop_is_Some. }
  cbn [heap _enabled _moduleExports _tracer trace set_heap set_enabled].
  split; [|repeat split; assumption].
  rewrite Hh.
  rewrite (set_prop_comm m "createConnection" "createPoolCluster")
    by discriminate.
  rewrite (set_prop_comm m "createConnection" "createPool") by discriminate.
  rewrite set_prop_set_prop, (set_prop_id m "createConnection") by exact H1.
  rewrite (set_prop_comm m "createPool" "createPoolCluster") by discriminate.
  rewrite !set_prop_set_prop.
  rewrite (set_prop_id m "createPool") by exact H2.
  now apply set_prop_id.
Qed.

(** ** Acquisition calls that carry no callback *)

(** X2. An enabled acquisition call that has no argument, more than
    three arguments, or a last argument that is not a function is passed
    to the original acquisition method as it is: same receiver, same
    arguments, same state, and no shim, so a connection obtained that way
    is not wrapped by this call. *)
Theorem getConnection_without_trailing_callback
    (uid : nat) (l : loc) (orig : fn) (this : val) (args : list val)
    (st : state) :
  _enabled st = true ->
  length args = 0 ∨ 3 < length args
  ∨ is_function (default VUndefined (last args)) = false ->
  call (Wrapped uid (TObj l "getConnection") orig (getConnection (VObj l) orig))
    this args st
  = call orig (VObj l) args st.
Proof.
  intros Hen Hargs. rewrite call_Wrapped. cbn [run]. rewrite Hen. cbn [negb].
  destruct args as [|a [|b [|c [|d rest]]]]; try reflexivity;
    destruct Hargs as [H|[H|H]]; cbn in H; try lia.
  - change (arg 0 [a]) with a. cbn [length Nat.eqb andb]. now rewrite H.
  - change (arg 1 [a; b]) with b. cbn [length Nat.eqb andb]. now rewrite H.
  - change (arg 2 [a; b; c]) with c. cbn [length Nat.eqb andb].
    now rewrite H.
Qed.

(** ** Stacks of wraps while disabled *)

(** X3. While disabled, one call of a [query] or [getConnection] method
    that carries any number of wraps installed in place (as after a
    repeated activation) removes all of them: the original method is back
    on the object and is called once, on that object, with the arguments
    of the call. *)
Theorem disabled_call_peels_every_layer
    (l : loc) (nm : string) (orig : fn) (uids : list nat) (args : list val)
    (st : state) :
  _enabled st = false ->
  nm = "query" ∨ nm = "getConnection" ->
  lookup_prop (heap st) l nm = Some (VFun (wraps l nm orig uids)) ->
  call (wraps l nm orig uids) (VObj l) args st
  = call orig (VObj l) args
      (set_heap (set_prop l nm (VFun orig) (heap st)) st).
Proof.
  intros Hd Hnm. revert st Hd.
  induction uids as [|uid rest IH]; intros st Hd Hl.
  - cbn [wraps] in *. now rewrite (set_prop_id _ _ _ _ Hl), set_heap_id.
  - cbn [wraps] in *. rewrite call_Wrapped.
    assert (Hrun : run (method_code l nm (wraps l nm orig rest)) args st
                   = call (wraps l nm orig rest) (VObj l) args
                       (shimmer_unwrap (VObj l) nm st)).
    { destruct Hnm as [-> | ->];
        cbn [method_code String.eqb Ascii.eqb Bool.eqb].
      - apply (run_disabled_query _ _ _ _ Hd).
      - apply (run_disabled_getConnection _ _ _ _ Hd). }
    rewrite Hrun, (shimmer_unwrap_wrapped _ _ _ _ _ _ Hl).
    rewrite IH.
    + cbn [heap set_heap]. now rewrite set_prop_set_prop.
    + exact Hd.
    + cbn [heap set_heap]. apply lookup_prop_set_prop_eq.
      eapply lookup_prop_is_Some, Hl.
Qed.

(** ** Queries without a callback *)

(** X4. An enabled query call with two or more arguments, a query of
    its declared type first and no function in second or third position,
    starts one span and calls the driver's method with the arguments as
    they are.  It installs nothing that could end the span: the
    arguments carry no shim and the store is exactly the one the driver
    left (no listener added), so the span stays open. *)
Theorem query_without_callback_leaves_span_open
    (uid : nat) (l : loc) (id : nat) (this : val) (args : list val)
    (st : state) :
  _enabled st = true ->
  2 <= length args ->
  is_query (heap st) (arg 0 args) = true ->
  is_function (arg 1 args) = false ->
  is_function (arg 2 args) = false ->
  ∃ sp,
    call (Wrapped uid (TObj l "query") (Native id) (query (VObj l) (Native id)))
      this args st
    = Some (fst (driver id (VObj l) args (heap st)),
            set_heap (snd (driver id (VObj l) args (heap st)))
              (set_trace (trace st ++ [ECall id (VObj l) args])
                 (set_tracer (_tracer st ++ [sp]) st)))
    ∧ ends sp = 0.
Proof.
  intros Hen Hlen Hq H1 H2. eexists. split.
  - rewrite call_Wrapped,
      (run_enabled_query _ _ _ _ _ _ Hen (query_startSpan_obj l args st)).
    assert (Hne : Nat.eqb (length args) 1 = false)
      by (apply Nat.eqb_neq; lia).
    rewrite Hne.
    unfold query_wrap_callback. rewrite H1, H2.
    rewrite call_Native. reflexivity.
  - reflexivity.
Qed.

(** ** Repeated delivery to the callback shim *)

(** X5. The shim of [_patchCallbackQuery] has no guard against a second
    delivery: every call of it, on a span that is open or already ended,
    calls [end()] on the span once more and then calls the caller's
    callback with the arguments it received.  On a span that was already
    ended the status stays as it was. *)
Theorem callback_shim_ends_on_every_delivery
    (uid : nat) (t : target) (span : nat) (cb : fn) (this : val)
    (cargs : list val) (st2 : state) (sp2 : Span) :
  _tracer st2 !! span = Some sp2 ->
  ∃ sp',
    call (Wrapped uid t cb (callbackQuery span cb)) this cargs st2
    = call cb VUndefined cargs
        (set_tracer (<[span := sp']> (_tracer st2)) st2)
    ∧ ends sp' = S (ends sp2)
    ∧ (ends sp2 ≠ 0 -> status sp' = status sp2).
Proof.
  intros Hsp. rewrite call_Wrapped, run_callbackQuery.
  rewrite callbackQuery_setStatus_total. cbn [mbind option_bind].
  unfold setStatus. rewrite (update_span_lookup _ _ _ _ Hsp).
  erewrite span_end_lookup.
  2:{ cbn [_tracer set_tracer]. apply list_lookup_insert_eq.
      now apply lookup_lt_Some in Hsp. }
  cbn [_tracer set_tracer]. rewrite list_insert_insert_eq.
  eexists. split; [reflexivity|].
  destruct (Nat.eqb (ends sp2) 0) eqn:E.
  - split; [reflexivity|]. apply Nat.eqb_eq in E. intros; lia.
  - split; reflexivity.
Qed.

(** ** The streaming shape without an error *)

(** X6. A single-argument query invocation, while enabled, on a driver
    that returns a fresh event emitter, followed by the ['end'] event
    with no ['error'] event before it: the code sets no status, so the
    span is ended, once, with the status it was created with ([OK]), and
    the ['end'] listener changes nothing else. *)
Theorem streaming_query_end_without_error
    (uid : nat) (l : loc) (id : nat) (this q : val) (st : state)
    (s : loc) (h' : gmap loc obj) (o : obj) :
  _enabled st = true ->
  driver id (VObj l) [q] (heap st) = (VObj s, h') ->
  h' !! s = Some o -> emitter o = true -> listeners o = [] ->
  ∃ st1 sp,
    call (Wrapped uid (TObj l "query") (Native id) (query (VObj l) (Native id)))
      this [q] st = Some (VObj s, st1)
    ∧ _tracer st1 = _tracer st ++ [sp]
    ∧ status sp = {| code_ := CanonicalCode.OK; message := VUndefined |}
    ∧ ends sp = 0
    ∧ emit s "end" [] st1
      = Some (set_tracer (_tracer st ++ [ended sp]) st1).
Proof.
  intros Hen Hdrv Hs Hem Hls.
  eexists. eexists. split; [|split; [|split; [|split]]].
  - rewrite call_Wrapped,
      (run_enabled_query _ _ _ _ _ _ Hen (query_startSpan_obj l [q] st)).
    cbn [length Nat.eqb]. rewrite call_Native.
    cbn [heap set_tracer]. rewrite Hdrv.
    cbn [mbind option_bind fst snd].
    erewrite on_emitter; [|exact Hs|exact Hem]. cbn [mbind option_bind].
    erewrite on_emitter; [|apply lookup_insert_eq|reflexivity].
    cbn [heap set_heap props listeners]. rewrite insert_insert_eq.
    reflexivity.
  - reflexivity.
  - reflexivity.
  - reflexivity.
  - erewrite (emit_one _ _ _ _ _ (Closure (streamEnd (length (_tracer st)))));
      [|apply lookup_insert_eq|cbn [listeners]; rewrite Hls; reflexivity].
    rewrite call_Closure. erewrite streamEnd_run.
    2:{ cbn [_tracer set_heap set_trace set_tracer].
        apply list_lookup_middle. reflexivity. }
    cbn [fmap option_fmap option_map snd _tracer set_heap set_trace
         set_tracer].
    now rewrite insert_snoc_last.
Qed.

(** ** What no call does *)

Lemma keeps_refl st : keeps st st.
Proof. unfold keeps. auto. Qed.

Lemma keeps_trans st1 st2 st3 : keeps st1 st2 -> keeps st2 st3 -> keeps st1 st3.
Proof. unfold keeps. intros (? & ? & ?) (? & ? & ?). repeat split; try congruence; lia. Qed.

Lemma shimmer_wrap_keeps nodule nm w st : keeps st (shimmer_wrap nodule nm w st).
Proof.
  destruct (shimmer_wrap_frame nodule nm w st) as (? & ? & Ht & _).
  unfold keeps. rewrite Ht. auto.
Qed.

Lemma shimmer_unwrap_keeps nodule nm st : keeps st (shimmer_unwrap nodule nm st).
Proof.
  destruct (shimmer_unwrap_frame nodule nm st) as (? & ? & Ht & _).
  unfold keeps. rewrite Ht. auto.
Qed.

Lemma update_span_keeps id f st : keeps st (update_span id f st).
Proof.
  unfold keeps, update_span. destruct (_tracer st !! id); cbn; auto.
  rewrite length_insert. auto.
Qed.

Lemma on_keeps v ev f st r st' : on v ev f st = Some (r, st') -> keeps st st'.
Proof.
  unfold on. repeat case_match; try discriminate.
  intros [= _ <-]. unfold keeps. cbn. auto.
Qed.

Lemma query_startSpan_keeps connection args st span st1 :
  query_startSpan connection args st = Some (span, st1) -> keeps st st1.
Proof.
  unfold query_startSpan.
  destruct (get_prop (heap st) connection "config"); [|discriminate].
  cbn [mbind option_bind startSpan]. intros [= _ <-].
  eapply keeps_trans; [|apply update_span_keeps].
  unfold keeps. cbn. rewrite length_app. cbn. repeat split; lia.
Qed.

Lemma query_wrap_callback_keeps span args st :
  keeps st (snd (query_wrap_callback span args st)).
Proof.
  unfold query_wrap_callback, shimmer_wrap_arguments.
  destruct (is_function (arg 1 args)).
  - destruct (args !! 1) as [[]|]; unfold keeps; cbn; auto.
  - destruct (is_function (arg 2 args)); [|apply keeps_refl].
    destruct (args !! 2) as [[]|]; unfold keeps; cbn; auto.
Qed.

Lemma getConnectionCallback_wrap_keeps args st st1 :
  getConnectionCallback_wrap args st = Some st1 -> keeps st st1.
Proof.
  unfold getConnectionCallback_wrap.
  destruct (truthy (arg 1 args)); [|intros [= <-]; apply keeps_refl].
  destruct (get_prop (heap st) (arg 1 args) "query"); [|discriminate].
  cbn [mbind option_bind].
  destruct (negb (isWrapped v)); intros [= <-];
    [apply shimmer_wrap_keeps|apply keeps_refl].
Qed.

(** X7. No call, of any function and in any state, changes the enabled
    flag or the module the plugin holds, and no call removes a span:
    only [patch()] and [unpatch()] toggle the plugin, and spans are only
    added. *)
Theorem call_keeps_flag_and_spans (f : fn) :
  ∀ this args st r st',
    call f this args st = Some (r, st') -> keeps st st'.
Proof.
  induction f using fn_mut with
    (P := fun v => ∀ g, v = VFun g -> ∀ this args st r st',
            call g this args st = Some (r, st') -> keeps st st')
    (P1 := fun c => ∀ args st r st',
            run c args st = Some (r, st') -> keeps st st');
    try (intros; discriminate).
  - intros g [= <-]. exact IHf.
  - intros this args st r st' H. rewrite call_Native in H.
    injection H as _ <-. unfold keeps. cbn. auto.
  - intros this args st r st' H. eapply IHf; eauto.
  - intros this args st r st' H. eapply IHf0; eauto.
  - intros args st r st' H. rewrite run_createConnection in H.
    destruct (call f VUndefined args st) as [[r1 st1]|] eqn:E; [|discriminate].
    cbn [mbind option_bind] in H. injection H as _ <-.
    eapply keeps_trans; [eapply IHf, E|apply shimmer_wrap_keeps].
  - intros args st r st' H. rewrite run_createPool in H.
    destruct (call f VUndefined args st) as [[r1 st1]|] eqn:E; [|discriminate].
    cbn [mbind option_bind] in H. injection H as _ <-.
    eapply keeps_trans; [eapply IHf, E|].
    eapply keeps_trans; apply shimmer_wrap_keeps.
  - intros args st r st' H. rewrite run_createPoolCluster in H.
    destruct (call f VUndefined args st) as [[r1 st1]|] eqn:E; [|discriminate].
    cbn [mbind option_bind] in H. injection H as _ <-.
    eapply keeps_trans; [eapply IHf, E|apply shimmer_wrap_keeps].
  - intros args st r st' H.
    destruct (_enabled st) eqn:Hen.
    + assert (∃ args', call f pool args' st = Some (r, st')) as [args' H'].
      { cbn [run] in H. rewrite Hen in H. cbn [negb] in H.
        repeat case_match; eauto. }
      eapply IHf0, H'.
    + rewrite (run_disabled_getConnection _ _ _ _ Hen) in H.
      eapply keeps_trans; [apply shimmer_unwrap_keeps|eapply IHf0, H].
  - intros args st r st' H. rewrite run_getConnectionCallback in H.
    destruct (getConnectionCallback_wrap args st) as [st1|] eqn:E;
      [|discriminate].
    cbn [mbind option_bind] in H.
    pose proof (getConnectionCallback_wrap_keeps _ _ _ E) as K.
    destruct cb; try (injection H as _ <-; exact K).
    destruct (call f VUndefined args st1) as [[r2 st2]|] eqn:E2;
      [|discriminate].
    cbn [mbind option_bind] in H. injection H as _ <-.
    eapply keeps_trans; [exact K|]. eapply (IHf f eq_refl), E2.
  - intros args st r st' H.
    destruct (_enabled st) eqn:Hen.
    + destruct (query_startSpan connection args st) as [[span st1]|] eqn:E.
      * rewrite (run_enabled_query _ _ _ _ _ _ Hen E) in H.
        pose proof (query_startSpan_keeps _ _ _ _ _ E) as K.
        destruct (Nat.eqb (length args) 1).
        -- destruct (call f connection args st1) as [[r2 st2]|] eqn:E2;
             [|discriminate].
           cbn [mbind option_bind] in H.
           destruct (on r2 "error" (Closure (streamError span)) st2)
             as [[r3 st3]|] eqn:E3; [|discriminate].
           cbn [mbind option_bind] in H.
           eapply keeps_trans; [exact K|].
           eapply keeps_trans; [eapply IHf0, E2|].
           eapply keeps_trans; [eapply on_keeps, E3|eapply on_keeps, H].
        -- pose proof (query_wrap_callback_keeps span args st1) as K2.
           destruct (query_wrap_callback span args st1) as [args' st2].
           eapply keeps_trans; [exact K|].
           eapply keeps_trans; [exact K2|eapply IHf0, H].
      * cbn [run] in H. rewrite Hen, E in H. discriminate.
    + rewrite (run_disabled_query _ _ _ _ Hen) in H.
      eapply keeps_trans; [apply shimmer_unwrap_keeps|eapply IHf0, H].
  - intros args st r st' H. rewrite run_callbackQuery in H.
    rewrite callbackQuery_setStatus_total in H. cbn [mbind option_bind] in H.
    eapply keeps_trans; [|eapply IHf, H].
    eapply keeps_trans; apply update_span_keeps.
  - intros args st r st' H. cbn [run] in H.
    destruct (get_prop (heap st) (arg 0 args) "message"); [|discriminate].
    cbn [mbind option_bind] in H. injection H as _ <-.
    apply update_span_keeps.
  - intros args st r st' H. cbn [run] in H. injection H as _ <-.
    apply update_span_keeps.
Qed.

(** ** Factories and the flag *)

(** X8. The wrapped factories do not consult the enabled flag: called
    while the plugin is disabled, [createConnection] still returns the
    original's connection with its [query] wrapped.  The first call of
    that [query] removes the wrap and calls the original method, in a
    store that is exactly the one the original factory left. *)
Theorem stale_factory_connection_heals
    (orig : fn) (uid : nat) (t : target) (this : val) (args qargs : list val)
    (st st1 : state) (l : loc) (f : fn) :
  call orig VUndefined args st = Some (VObj l, st1) ->
  _enabled st1 = false ->
  lookup_prop (heap st1) l "query" = Some (VFun f) ->
  ∃ st2,
    call (Wrapped uid t orig (createConnection orig)) this args st
    = Some (VObj l, st2)
    ∧ lookup_prop (heap st2) l "query"
      = Some (VFun (Wrapped (next_uid st1) (TObj l "query") f
                      (query (VObj l) f)))
    ∧ invoke (VObj l) "query" qargs st2
      = call f (VObj l) qargs (set_heap (heap st1) st2).
Proof.
  intros Horig Hd Hq.
  assert (Hsome : is_Some (heap st1 !! l)) by (eapply lookup_prop_is_Some, Hq).
  eexists. split; [|split].
  - rewrite call_Wrapped, run_createConnection, Horig.
    cbn [mbind option_bind].
    rewrite (shimmer_wrap_function l "query" _ _ f Hq). reflexivity.
  - cbn [heap set_heap apply_wrapper fst].
    now apply lookup_prop_set_prop_eq.
  - erewrite invoke_method.
    2:{ cbn [heap set_heap]. now apply lookup_prop_set_prop_eq. }
    cbn [apply_wrapper fst snd].
    rewrite call_Wrapped, run_disabled_query by exact Hd.
    erewrite shimmer_unwrap_wrapped.
    2:{ cbn [heap set_heap]. now apply lookup_prop_set_prop_eq. }
    cbn [heap set_heap].
    now rewrite set_prop_set_prop, (set_prop_id _ _ _ _ Hq).
Qed.

(** ** What activation and deactivation touch *)

Lemma touches_only_refl m names st : touches_only m names st st.
Proof. unfold touches_only. auto. Qed.

Lemma touches_only_set_enabled m names b st :
  touches_only m names st (set_enabled b st).
Proof. unfold touches_only. cbn. auto. Qed.

Lemma touches_only_trans m names st1 st2 st3 :
  touches_only m names st1 st2 -> touches_only m names st2 st3 ->
  touches_only m names st1 st3.
Proof.
  intros (Ht & Htr & He & Hl & Hp) (Ht' & Htr' & He' & Hl' & Hp').
  unfold touches_only.
  split; [congruence|]. split; [congruence|].
  split; [intros l; now rewrite He'|].
  split; [intros l; now rewrite Hl'|].
  intros l nm Hne. now rewrite Hp', Hp.
Qed.

Lemma touches_only_set_prop m names nm v st st0 :
  nm ∈ names -> _tracer st0 = _tracer st -> trace st0 = trace st ->
  touches_only m names st (set_heap (set_prop m nm v (heap st)) st0).
Proof.
  intros Hin Ht Htr. unfold touches_only. cbn [_tracer trace heap set_heap].
  split; [exact Ht|]. split; [exact Htr|].
  split; [intros; apply set_prop_emitter|].
  split; [intros; apply set_prop_listeners|].
  intros l nm' Hne. apply lookup_prop_set_prop_ne.
  destruct Hne as [Hne|Hne]; [left; congruence|right; congruence].
Qed.

Lemma shimmer_wrap_touches_only m names nm w st :
  nm ∈ names -> touches_only m names st (shimmer_wrap (VObj m) nm w st).
Proof.
  intros Hin.
  destruct (shimmer_wrap_cases (VObj m) nm w st)
    as [[-> _]|(l & f & [= <-] & _ & ->)]; [apply touches_only_refl|].
  destruct (apply_wrapper_frame w f st) as (_ & _ & Ht & Htr & _).
  now apply touches_only_set_prop.
Qed.

Lemma shimmer_unwrap_in_place m nm st :
  (∀ uid t orig c,
     lookup_prop (heap st) m nm = Some (VFun (Wrapped uid t orig c)) ->
     t = TObj m nm) ->
  shimmer_unwrap (VObj m) nm st = st
  ∨ ∃ v, shimmer_unwrap (VObj m) nm st
         = set_heap (set_prop m nm v (heap st)) st.
Proof.
  intros Hin. cbn [shimmer_unwrap].
  destruct (lookup_prop (heap st) m nm) as [[| | | | | | | |[]]|] eqn:E;
    try (now left).
  rewrite (Hin _ _ _ _ eq_refl), E, Nat.eqb_refl. right. eauto.
Qed.

(** X9. Activation and deactivation touch nothing but the three factory
    exports of the module object.  [patch()] changes no property of any
    other object and no other property of the module, no listener, no
    span and no recorded call; so does [unpatch()] when the wraps found
    on the three exports were installed there.  Objects already produced
    by the factories are left as they are. *)
Theorem activation_touches_only_factories (m : loc) (st : state) :
  _moduleExports st = VObj m ->
  touches_only m factories st (snd (patch st))
  ∧ ((∀ nm uid t orig c,
        nm ∈ factories ->
        lookup_prop (heap st) m nm = Some (VFun (Wrapped uid t orig c)) ->
        t = TObj m nm) ->
     touches_only m factories st (unpatch st)).
Proof.
  intros Hm.
  assert (I1 : "createConnection" ∈ factories) by apply list_elem_of_here.
  assert (I2 : "createPool" ∈ factories)
    by apply list_elem_of_further, list_elem_of_here.
  assert (I3 : "createPoolCluster" ∈ factories)
    by (do 2 apply list_elem_of_further; apply list_elem_of_here).
  split.
  - unfold patch. cbn [snd].
    set (st0 := set_enabled true st).
    assert (T0 : touches_only m factories st st0)
      by apply touches_only_set_enabled.
    assert (E0 : _moduleExports st0 = VObj m) by exact Hm.
    rewrite E0.
    set (sa := shimmer_wrap (VObj m) "createConnection" _ st0).
    assert (Ea : _moduleExports sa = VObj m).
    { destruct (shimmer_wrap_frame (VObj m) "createConnection"
                  _patchCreateConnection st0) as (_ & E & _).
      exact (eq_trans E E0). }
    rewrite Ea.
    set (sb := shimmer_wrap (VObj m) "createPool" _ sa).
    assert (Eb : _moduleExports sb = VObj m).
    { destruct (shimmer_wrap_frame (VObj m) "createPool"
                  _patchCreatePool sa) as (_ & E & _).
      exact (eq_trans E Ea). }
    rewrite Eb.
    eapply touches_only_trans; [exact T0|].
    eapply touches_only_trans; [apply shimmer_wrap_touches_only, I1|].
    eapply touches_only_trans; [apply shimmer_wrap_touches_only, I2|].
    apply shimmer_wrap_touches_only, I3.
  - intros Hin. unfold unpatch.
    set (st0 := set_enabled false st).
    assert (E0 : _moduleExports st0 = VObj m) by exact Hm.
    assert (Hstep : ∀ nm s,
              nm ∈ factories -> _moduleExports s = VObj m ->
              (∀ uid t orig c,
                 lookup_prop (heap s) m nm
                 = Some (VFun (Wrapped uid t orig c)) -> t = TObj m nm) ->
              touches_only m factories s (shimmer_unwrap (VObj m) nm s)
              ∧ _moduleExports (shimmer_unwrap (VObj m) nm s) = VObj m
              ∧ ∀ nm', nm' ≠ nm ->
                  lookup_prop (heap (shimmer_unwrap (VObj m) nm s)) m nm'
                  = lookup_prop (heap s) m nm').
    { intros nm s Hnm Es Hs.
      destruct (shimmer_unwrap_in_place m nm s Hs) as [->|[v ->]].
      - split; [apply touches_only_refl|]. split; [exact Es|reflexivity].
      - split; [now apply touches_only_set_prop|]. split; [exact Es|].
        intros nm' Hne. cbn [heap set_heap].
        apply lookup_prop_set_prop_ne. right. congruence. }
    rewrite E0.
    destruct (Hstep "createConnection" st0 I1 E0) as (Ta & Ea & La).
    { intros uid t orig c. apply Hin, I1. }
    set (sa := shimmer_unwrap (VObj m) "createConnection" st0) in *.
    rewrite Ea.
    destruct (Hstep "createPool" sa I2 Ea) as (Tb & Eb & Lb).
    { intros uid t orig c. rewrite La by discriminate. apply Hin, I2. }
    set (sb := shimmer_unwrap (VObj m) "createPool" sa) in *.
    rewrite Eb.
    destruct (Hstep "createPoolCluster" sb I3 Eb) as (Tc & _ & _).
    { intros uid t orig c. rewrite Lb, La by discriminate. apply Hin, I3. }
    eapply touches_only_trans; [apply (touches_only_set_enabled _ _ false)|].
    eapply touches_only_trans; [exact Ta|].
    eapply touches_only_trans; [exact Tb|exact Tc].
Qed.

(** ** Wrapped queries composed *)

(** The callback-shaped branch of [query] for a callback in second
    position. *)
Lemma run_callback_query l orig args st cb :
  _enabled st = true ->
  args !! 1 = Some (VFun cb) ->
  ∃ sp,
    ends sp = 0
    ∧ run (query (VObj l) orig) args st
      = call orig (VObj l)
          (<[1 := VFun (Wrapped (next_uid st) (TArguments 1) cb
                          (callbackQuery (length (_tracer st)) cb))]> args)
          (set_next_uid (S (next_uid st))
             (set_tracer (_tracer st ++ [sp]) st)).
Proof.
  intros Hen Hcb. eexists. split; cycle 1.
  - rewrite (run_enabled_query _ _ _ _ _ _ Hen
               (query_startSpan_obj l args st)).
    assert (Hlen : Nat.eqb (length args) 1 = false).
    { apply Nat.eqb_neq. apply lookup_lt_Some in Hcb. lia. }
    rewrite Hlen. unfold query_wrap_callback.
    rewrite (arg_lookup _ _ _ Hcb). cbn [is_function].
    unfold shimmer_wrap_arguments. rewrite Hcb. reflexivity.
  - reflexivity.
Qed.

(** X10. A connection is instrumented before the caller's callback sees
    it: once the first part of the acquisition shim has run for a
    connection whose [query] is an unwrapped function, a callback-style
    query on that connection (as the caller's callback may issue) starts
    exactly one span and reaches the connection's own [query] with the
    callback replaced by the span's shim. *)
Theorem acquired_connection_is_instrumented
    (args qargs : list val) (st : state) (c : loc) (f cb : fn) :
  _enabled st = true ->
  arg 1 args = VObj c ->
  lookup_prop (heap st) c "query" = Some (VFun f) ->
  isWrapped (VFun f) = false ->
  qargs !! 1 = Some (VFun cb) ->
  ∃ st1 sp,
    getConnectionCallback_wrap args st = Some st1
    ∧ ends sp = 0
    ∧ invoke (VObj c) "query" qargs st1
      = call f (VObj c)
          (<[1 := VFun (Wrapped (S (next_uid st)) (TArguments 1) cb
                          (callbackQuery (length (_tracer st)) cb))]> qargs)
          (set_next_uid (S (S (next_uid st)))
             (set_tracer (_tracer st ++ [sp]) st1)).
Proof.
  intros Hen Hc Hq Hw Hcb.
  assert (Hsome : is_Some (heap st !! c)) by (eapply lookup_prop_is_Some, Hq).
  assert (Hstep : getConnectionCallback_wrap args st
                  = Some (shimmer_wrap (VObj c) "query" (_patchQuery (VObj c))
                            st)).
  { unfold getConnectionCallback_wrap. rewrite Hc.
    cbn [truthy get_prop mbind option_bind]. rewrite Hq.
    destruct f; try discriminate Hw; reflexivity. }
  rewrite (shimmer_wrap_function c "query" _ _ f Hq) in Hstep.
  cbn [apply_wrapper fst snd] in Hstep.
  set (st1 := set_heap _ _) in Hstep.
  assert (Hen1 : _enabled st1 = true) by exact Hen.
  destruct (run_callback_query c f qargs st1 cb Hen1 Hcb) as (sp & Hopen & Hrun).
  exists st1, sp. split; [exact Hstep|]. split; [exact Hopen|].
  erewrite invoke_method.
  2:{ unfold st1. cbn [heap set_heap]. now apply lookup_prop_set_prop_eq. }
  rewrite call_Wrapped. exact Hrun.
Qed.

(** X11. While enabled, every wrap on a [query] method starts its own
    span: a callback-style call of a method that carries [n] wraps
    installed in place reaches the original method with [n] more spans
    started, a function still in second position, and the other
    arguments as they were.  So a connection made after a repeated
    activation reports every query as many times as it was wrapped. *)
Theorem enabled_call_starts_one_span_per_layer
    (l : loc) (orig : fn) (uids : list nat) (args : list val) (st : state) :
  _enabled st = true ->
  is_function (arg 1 args) = true ->
  ∃ args' st',
    call (wraps l "query" orig uids) (VObj l) args st
    = call orig (VObj l) args' st'
    ∧ length (_tracer st') = length (_tracer st) + length uids
    ∧ is_function (arg 1 args') = true
    ∧ (∀ i, i ≠ 1 -> args' !! i = args !! i)
    ∧ heap st' = heap st ∧ trace st' = trace st.
Proof.
  revert args st. induction uids as [|uid rest IH]; intros args st Hen Hf.
  - exists args, st. cbn [wraps length]. rewrite Nat.add_0_r.
    repeat split; auto.
  - cbn [wraps method_code String.eqb Ascii.eqb Bool.eqb].
    rewrite call_Wrapped.
    assert (∃ cb, args !! 1 = Some (VFun cb)) as [cb Hcb].
    { unfold arg in Hf. destruct (args !! 1) as [[]|]; try discriminate.
      eauto. }
    destruct (run_callback_query l (wraps l "query" orig rest) args st cb
                Hen Hcb) as (sp & _ & ->).
    match goal with
    | |- context [call _ _ ?a ?s] =>
        destruct (IH a s) as (args' & st' & Hcall & Hlen & Hf' & Hargs & Hh & Htr)
    end.
    + exact Hen.
    + unfold arg. rewrite list_lookup_insert_eq by (now apply lookup_lt_Some in Hcb).
      reflexivity.
    + exists args', st'. split; [exact Hcall|].
      split.
      { rewrite Hlen. cbn [_tracer set_next_uid set_tracer length].
        rewrite length_app. cbn [length]. lia. }
      split; [exact Hf'|].
      split.
      { intros i Hi. rewrite Hargs by exact Hi.
        now apply list_lookup_insert_ne. }
      split; [exact Hh|exact Htr].
Qed.

End Facts.

(** ** The plugin on the sample driver *)

(** The sample states are what they are described to be. *)
Example sample_connected :
  lookup_prop (heap Sample.connected) 2 "query"
  = Some (VFun (Wrapped 3 (TObj 2 "query") (Native 10)
                  (query (VObj 2) (Native 10))))
  ∧ _enabled Sample.connected = true
  ∧ _tracer Sample.connected = []
  ∧ trace Sample.connected
    = [ECall 1 VUndefined [VStr "mysql://localhost/db"]].
Proof. vm_compute. repeat split. Qed.

Example sample_pooled :
  lookup_prop (heap Sample.pooled) 2 "query"
  = Some (VFun (Wrapped 3 (TObj 2 "query") (Native 10)
                  (query (VObj 2) (Native 10))))
  ∧ lookup_prop (heap Sample.pooled) 2 "getConnection"
    = Some (VFun (Wrapped 4 (TObj 2 "getConnection") (Native 11)
                    (getConnection (VObj 2) (Native 11)))).
Proof. vm_compute. repeat split. Qed.

(** Scenario A of the specification. *)
Example scenario_A :
  let shim :=
    Wrapped 4 (TArguments 1) (Native 20) (callbackQuery 0 (Native 20)) in
  let r1 :=
    Sample.invoke (VObj 2) "query" [VStr "SELECT 1"; VFun (Native 20)]
      Sample.connected in
  let st1 := Sample.state_after r1 in
  let r2 := Sample.call shim VUndefined [VNull; VArr [VNum 1]] st1 in
  let st2 := Sample.state_after r2 in
  r1 = Some (VObj 3, st1)
  ∧ last (trace st1) = Some (ECall 10 (VObj 2) [VStr "SELECT 1"; VFun shim])
  ∧ r2 = Some (VUndefined, st2)
  ∧ _tracer st2
    = [{| name := VStr "SELECT 1"; kind := SpanKind.CLIENT;
          attributes := [("db.system", VStr "mysql");
                         ("db.statement", VStr "SELECT 1")];
          status := {| code_ := CanonicalCode.OK; message := VUndefined |};
          ends := 1 |}]
  ∧ last (trace st2) = Some (ECall 20 VUndefined [VNull; VArr [VNum 1]]).
Proof. vm_compute. repeat split. Qed.

(** Scenario B of the specification: the driver delivers an error whose
    message is ["connection lost"]. *)
Example scenario_B :
  let shim :=
    Wrapped 4 (TArguments 1) (Native 20) (callbackQuery 0 (Native 20)) in
  let lost :=
    {| props := {[ "message" := VStr "connection lost" ]};
       emitter := false; listeners := [] |} in
  let st1 :=
    Sample.state_after
      (Sample.invoke (VObj 2) "query" [VStr "SELECT 1"; VFun (Native 20)]
         Sample.connected) in
  let st1' := set_heap (<[4 := lost]> (heap st1)) st1 in
  let st2 := Sample.state_after (Sample.call shim VUndefined [VObj 4] st1') in
  (status <$> _tracer st2 !! 0)
  = Some {| code_ := CanonicalCode.UNKNOWN;
            message := VStr "connection lost" |}
  ∧ (ends <$> _tracer st2 !! 0) = Some 1
  ∧ last (trace st2) = Some (ECall 20 VUndefined [VObj 4]).
Proof. vm_compute. repeat split. Qed.

Lemma callback_query_span_lifecycle_witness :
  ∃ sp,
    ends sp = 0
    ∧ Sample.call
        (Wrapped 3 (TObj 2 "query") (Native 10) (query (VObj 2) (Native 10)))
        (VObj 2) [VStr "SELECT 1"; VFun (Native 20)] Sample.connected
      = Sample.call (Native 10) (VObj 2)
          [VStr "SELECT 1";
           VFun (Wrapped 4 (TArguments 1) (Native 20)
                   (callbackQuery 0 (Native 20)))]
          (set_next_uid 5 (set_tracer [sp] Sample.connected)).
Proof.
  destruct (callback_query_span_lifecycle
              Sample.driver Sample.format Sample.getSpanName
              Sample.getConnectionAttributes
              3 2 (Native 10) (VObj 2)
              [VStr "SELECT 1"; VFun (Native 20)] Sample.connected
              1 (Native 20))
    as (sp & Hcall & Hopen & _).
  - reflexivity.
  - left. reflexivity.
  - reflexivity.
  - exists sp. split; [exact Hopen|exact Hcall].
Defined.

Lemma streaming_query_error_then_end_witness :
  ∃ st1 sp,
    Sample.call
      (Wrapped 3 (TObj 2 "query") (Native 10) (query (VObj 2) (Native 10)))
      (VObj 2) [VStr "SELECT 1"] Sample.connected = Some (VObj 3, st1)
    ∧ _tracer st1 = [sp] ∧ ends sp = 0.
Proof.
  destruct (streaming_query_error_then_end
              Sample.driver Sample.format Sample.getSpanName
              Sample.getConnectionAttributes
              3 2 10 (VObj 2) (VStr "SELECT 1") Sample.connected
              3 (<[3 := Sample.stream_obj]> (heap Sample.connected))
              Sample.stream_obj)
    as (st1 & sp & Hcall & Htr & Hopen & _).
  - reflexivity.
  - vm_compute. reflexivity.
  - apply lookup_insert_eq.
  - reflexivity.
  - reflexivity.
  - exists st1, sp. split; [exact Hcall|]. split; [exact Htr|exact Hopen].
Defined.

(** C3.  [query("SELECT ?", [5])] on the sample connection, while
    enabled: one span is started and its statement is ["SELECT 5"], but
    the call has two arguments, so it is not treated as a streaming
    invocation, and it has no callback to wrap: the original is called
    with the arguments as they are, no listener is registered on the
    stream it returns, and the stream's ['end'] event leaves the span
    as it is, not ended. *)
Theorem values_without_callback_span_never_ended :
  let r :=
    Sample.invoke (VObj 2) "query" [VStr "SELECT ?"; VArr [VNum 5]]
      Sample.connected in
  let st1 := Sample.state_after r in
  r = Some (VObj 3, st1)
  ∧ _tracer st1
    = [{| name := VStr "SELECT ?"; kind := SpanKind.CLIENT;
          attributes := [("db.system", VStr "mysql");
                         ("db.statement", VStr "SELECT 5")];
          status := {| code_ := CanonicalCode.OK; message := VUndefined |};
          ends := 0 |}]
  ∧ last (trace st1)
    = Some (ECall 10 (VObj 2) [VStr "SELECT ?"; VArr [VNum 5]])
  ∧ listeners <$> heap st1 !! 3 = Some []
  ∧ Sample.emit 3 "end" [] st1 = Some st1.
Proof. vm_compute. repeat split. Qed.

Lemma disabled_call_unwraps_and_delegates_witness :
  let st := set_enabled false Sample.pooled in
  let unwrapped :=
    set_heap (set_prop 2 "getConnection" (VFun (Native 11)) (heap st)) st in
  Sample.invoke (VObj 2) "getConnection" [VFun (Native 20)] st
  = Sample.call (Native 11) (VObj 2) [VFun (Native 20)] unwrapped
  ∧ lookup_prop (heap unwrapped) 2 "getConnection" = Some (VFun (Native 11)).
Proof.
  intros st unwrapped.
  destruct (disabled_call_unwraps_and_delegates
              Sample.driver Sample.format Sample.getSpanName
              Sample.getConnectionAttributes
              2 "getConnection" 4 (Native 11) [VFun (Native 20)] st)
    as (Hcall & Hl & _).
  - reflexivity.
  - right. reflexivity.
  - vm_compute. reflexivity.
  - split; [exact Hcall|exact Hl].
Defined.

Lemma acquired_connection_wrapped_once_witness :
  ∃ st1,
    getConnectionCallback_wrap [VNull; VObj 3]
      (set_heap (<[3 := Sample.connection_obj]> (heap Sample.pooled))
         Sample.pooled) = Some st1
    ∧ getConnectionCallback_wrap [VNull; VObj 3] st1 = Some st1.
Proof.
  destruct (acquired_connection_wrapped_once
              Sample.driver Sample.format Sample.getSpanName
              Sample.getConnectionAttributes
              (VFun (Native 20)) VUndefined [VNull; VObj 3]
              (set_heap (<[3 := Sample.connection_obj]> (heap Sample.pooled))
                 Sample.pooled) 3)
    as (st1 & Hw & _ & _ & _ & _ & Hagain).
  - reflexivity.
  - exists st1. split; [exact Hw|]. apply Hagain. reflexivity.
Defined.

Lemma getConnection_replaces_trailing_callback_witness :
  Sample.call
    (Wrapped 4 (TObj 2 "getConnection") (Native 11)
       (getConnection (VObj 2) (Native 11)))
    (VObj 2) [VStr "REPLICA*"; VStr "ORDER"; VFun (Native 20)] Sample.pooled
  = Sample.call (Native 11) (VObj 2)
      [VStr "REPLICA*"; VStr "ORDER";
       VFun (Closure (getConnectionCallback (VFun (Native 20))))]
      Sample.pooled.
Proof.
  destruct (getConnection_replaces_trailing_callback
              Sample.driver Sample.format Sample.getSpanName
              Sample.getConnectionAttributes
              4 2 (Native 11) (VObj 2)
              [VStr "REPLICA*"; VStr "ORDER"; VFun (Native 20)]
              Sample.pooled (Native 20))
    as (Hcall & _).
  - reflexivity.
  - cbn. lia.
  - reflexivity.
  - exact Hcall.
Defined.

Lemma acquisition_failure_forwards_once_witness :
  Sample.call (Closure (getConnectionCallback (VFun (Native 20)))) VUndefined
    [VObj 0] Sample.pooled
  = Some (VUndefined,
          set_heap
            (snd (Sample.driver 20 VUndefined [VObj 0] (heap Sample.pooled)))
            (set_trace (trace Sample.pooled ++ [ECall 20 VUndefined [VObj 0]])
               Sample.pooled)).
Proof.
  destruct (acquisition_failure_forwards_once
              Sample.driver Sample.format Sample.getSpanName
              Sample.getConnectionAttributes
              (Native 20) VUndefined [VObj 0] Sample.pooled)
    as (_ & _ & Hnative & _).
  - reflexivity.
  - exact (Hnative 20 eq_refl).
Defined.

Lemma factories_delegate_and_attach_witness :
  let args := [VStr "mysql://localhost/db"] in
  let st1 :=
    Sample.state_after (Sample.call (Native 2) VUndefined args Sample.active) in
  ∃ st2,
    Sample.call
      (Wrapped 1 (TObj 1 "createPool") (Native 2) (createPool (Native 2)))
      (VObj 1) args Sample.active
    = Some (VObj 2, st2)
    ∧ attached (VObj 2) ["query"; "getConnection"] st1 st2.
Proof.
  intros args st1.
  destruct (factories_delegate_and_attach
              Sample.driver Sample.format Sample.getSpanName
              Sample.getConnectionAttributes
              (Native 2) 1 (TObj 1 "createPool") (VObj 1) args
              Sample.active (VObj 2) st1)
    as (_ & Hpool & _).
  - vm_compute. reflexivity.
  - exact Hpool.
Defined.

Lemma activation_wraps_current_bindings_witness :
  lookup_prop (heap Sample.active) 1 "createConnection"
  = Some (VFun (Wrapped 0 (TObj 1 "createConnection") (Native 1)
                  (createConnection (Native 1))))
  ∧ unpatch Sample.init = Sample.init.
Proof.
  destruct (activation_wraps_current_bindings
              1 Sample.init (Native 1) (Native 2) (Native 3))
    as (_ & _ & Hcc & _ & _ & Hoff & _).
  - reflexivity.
  - vm_compute. reflexivity.
  - vm_compute. reflexivity.
  - vm_compute. reflexivity.
  - split; [exact Hcc|]. apply Hoff; reflexivity.
Defined.

(** C6 as stated fails: a second [patch()] is not a no-op.  It wraps the
    wrapped factory again, and then one [createConnection] wraps the
    connection's [query] twice, so that one query starts two spans
    instead of one. *)
Lemma double_activation_counterexample :
  let once := snd (patch Sample.init) in
  let twice := snd (patch once) in
  let spans_of_one_query st :=
    length (_tracer (Sample.state_after
      (Sample.invoke (VObj 2) "query" [VStr "SELECT 1"; VFun (Native 20)]
         (Sample.state_after
            (Sample.invoke (VObj 1) "createConnection"
               [VStr "mysql://localhost/db"] st))))) in
  lookup_prop (heap twice) 1 "createConnection"
  = Some (VFun
      (Wrapped 3 (TObj 1 "createConnection")
         (Wrapped 0 (TObj 1 "createConnection") (Native 1)
            (createConnection (Native 1)))
         (createConnection
            (Wrapped 0 (TObj 1 "createConnection") (Native 1)
               (createConnection (Native 1))))))
  ∧ lookup_prop (heap twice) 1 "createConnection"
    ≠ lookup_prop (heap once) 1 "createConnection"
  ∧ twice ≠ once
  ∧ spans_of_one_query once = 1
  ∧ spans_of_one_query twice = 2.
Proof.
  intros once twice spans_of_one_query.
  split; [vm_compute; reflexivity|].
  split; [vm_compute; discriminate|].
  split.
  - intros H. apply (f_equal next_uid) in H. vm_compute in H. discriminate.
  - split; vm_compute; reflexivity.
Qed.

Lemma statement_attribute_rendering_witness :
  ∃ sp st1,
    query_startSpan Sample.format Sample.getSpanName
      Sample.getConnectionAttributes (VObj 2)
      [VStr "SELECT ?"; VNum 5; VFun (Native 20)] Sample.connected
    = Some (length (_tracer Sample.connected), st1)
    ∧ _tracer st1 = _tracer Sample.connected ++ [sp]
    ∧ attribute DB_STATEMENT sp
      = Some (VStr (Sample.format
                      (query_text (heap Sample.connected) (VStr "SELECT ?"))
                      [VNum 5])).
Proof.
  destruct (statement_attribute_rendering
              Sample.driver Sample.format Sample.getSpanName
              Sample.getConnectionAttributes
              3 2 10 (VObj 2) [VStr "SELECT ?"; VNum 5; VFun (Native 20)]
              Sample.connected)
    as (sp & st1 & Hstart & Htr & _ & Hattr & _).
  - reflexivity.
  - reflexivity.
  - exists sp, st1. split; [exact Hstart|]. split; [exact Htr|].
    apply Hattr; [intros vs; discriminate|reflexivity].
Defined.

(** C7 as stated fails: [query("SELECT ?", 5)], a single bind value and
    no callback.  The driver would render the text against that value,
    ["SELECT 5"]; the statement attribute is the text as it was written,
    because the single value is only used when a third argument is
    present. *)
Lemma single_value_without_callback_counterexample :
  let st1 :=
    Sample.state_after
      (Sample.invoke (VObj 2) "query" [VStr "SELECT ?"; VNum 5]
         Sample.connected) in
  Sample.format "SELECT ?" [VNum 5] = "SELECT 5"
  ∧ attribute DB_STATEMENT <$> _tracer st1 !! 0
    = Some (Some (VStr "SELECT ?"))
  ∧ attribute DB_STATEMENT <$> _tracer st1 !! 0
    ≠ Some (Some (VStr (Sample.format "SELECT ?" [VNum 5]))).
Proof.
  intros st1. split; [vm_compute; reflexivity|].
  split; [vm_compute; reflexivity|]. vm_compute. discriminate.
Qed.

(** ** Further facts on the sample driver *)

Lemma unpatch_after_patch_restores_witness :
  heap (unpatch (snd (patch Sample.init))) = heap Sample.init.
Proof.
  destruct (unpatch_after_patch_restores
              1 Sample.init (Native 1) (Native 2) (Native 3))
    as (H & _).
  - reflexivity.
  - vm_compute. reflexivity.
  - vm_compute. reflexivity.
  - vm_compute. reflexivity.
  - exact H.
Defined.

Lemma getConnection_without_trailing_callback_witness :
  Sample.call
    (Wrapped 4 (TObj 2 "getConnection") (Native 11)
       (getConnection (VObj 2) (Native 11)))
    (VObj 2) [VStr "REPLICA*"] Sample.pooled
  = Sample.call (Native 11) (VObj 2) [VStr "REPLICA*"] Sample.pooled.
Proof.
  apply (getConnection_without_trailing_callback
           Sample.driver Sample.format Sample.getSpanName
           Sample.getConnectionAttributes).
  - reflexivity.
  - right. right. reflexivity.
Defined.

Lemma disabled_call_peels_every_layer_witness :
  let st := set_enabled false Sample.rewrapped in
  Sample.call (wraps 2 "query" (Native 10) [7; 6]) (VObj 2) [VStr "SELECT 1"] st
  = Sample.call (Native 10) (VObj 2) [VStr "SELECT 1"]
      (set_heap (set_prop 2 "query" (VFun (Native 10)) (heap st)) st).
Proof.
  intros st.
  apply (disabled_call_peels_every_layer
           Sample.driver Sample.format Sample.getSpanName
           Sample.getConnectionAttributes).
  - reflexivity.
  - left. reflexivity.
  - vm_compute. reflexivity.
Defined.

Lemma query_without_callback_leaves_span_open_witness :
  ∃ sp,
    Sample.call
      (Wrapped 3 (TObj 2 "query") (Native 10) (query (VObj 2) (Native 10)))
      (VObj 2) [VStr "SELECT ?"; VArr [VNum 5]] Sample.connected
    = Some (fst (Sample.driver 10 (VObj 2) [VStr "SELECT ?"; VArr [VNum 5]]
                   (heap Sample.connected)),
            set_heap
              (snd (Sample.driver 10 (VObj 2) [VStr "SELECT ?"; VArr [VNum 5]]
                      (heap Sample.connected)))
              (set_trace
                 (trace Sample.connected
                  ++ [ECall 10 (VObj 2) [VStr "SELECT ?"; VArr [VNum 5]]])
                 (set_tracer (_tracer Sample.connected ++ [sp])
                    Sample.connected)))
    ∧ ends sp = 0.
Proof.
  apply (query_without_callback_leaves_span_open
           Sample.driver Sample.format Sample.getSpanName
           Sample.getConnectionAttributes).
  - reflexivity.
  - cbn. lia.
  - reflexivity.
  - reflexivity.
  - reflexivity.
Defined.

Lemma callback_shim_ends_on_every_delivery_witness :
  let sp2 :=
    {| name := VStr "SELECT 1"; kind := SpanKind.CLIENT;
       attributes := [("db.system", VStr "mysql");
                      ("db.statement", VStr "SELECT 1")];
       status := {| code_ := CanonicalCode.OK; message := VUndefined |};
       ends := 1 |} in
  let st2 := set_tracer [sp2] Sample.connected in
  ∃ sp',
    Sample.call
      (Wrapped 4 (TArguments 1) (Native 20) (callbackQuery 0 (Native 20)))
      VUndefined [VNull] st2
    = Sample.call (Native 20) VUndefined [VNull]
        (set_tracer (<[0 := sp']> (_tracer st2)) st2)
    ∧ ends sp' = S (ends sp2)
    ∧ (ends sp2 ≠ 0 -> status sp' = status sp2).
Proof.
  intros sp2 st2.
  apply (callback_shim_ends_on_every_delivery
           Sample.driver Sample.format Sample.getSpanName
           Sample.getConnectionAttributes).
  reflexivity.
Defined.

Lemma streaming_query_end_without_error_witness :
  ∃ st1 sp,
    Sample.call
      (Wrapped 3 (TObj 2 "query") (Native 10) (query (VObj 2) (Native 10)))
      (VObj 2) [VStr "SELECT 1"] Sample.connected = Some (VObj 3, st1)
    ∧ Sample.emit 3 "end" [] st1
      = Some (set_tracer (_tracer Sample.connected ++ [ended sp]) st1).
Proof.
  destruct (streaming_query_end_without_error
              Sample.driver Sample.format Sample.getSpanName
              Sample.getConnectionAttributes
              3 2 10 (VObj 2) (VStr "SELECT 1") Sample.connected
              3 (<[3 := Sample.stream_obj]> (heap Sample.connected))
              Sample.stream_obj)
    as (st1 & sp & Hcall & _ & _ & _ & Hend).
  - reflexivity.
  - vm_compute. reflexivity.
  - apply lookup_insert_eq.
  - reflexivity.
  - reflexivity.
  - exists st1, sp. split; [exact Hcall|exact Hend].
Defined.

Lemma call_keeps_flag_and_spans_witness :
  let f :=
    Wrapped 3 (TObj 2 "query") (Native 10) (query (VObj 2) (Native 10)) in
  let args := [VStr "SELECT 1"; VFun (Native 20)] in
  keeps Sample.connected
    (Sample.state_after (Sample.call f (VObj 2) args Sample.connected)).
Proof.
  intros f args.
  apply (call_keeps_flag_and_spans
           Sample.driver Sample.format Sample.getSpanName
           Sample.getConnectionAttributes f (VObj 2) args
           Sample.connected (VObj 3)).
  vm_compute. reflexivity.
Defined.

Lemma stale_factory_connection_heals_witness :
  let st := set_enabled false Sample.active in
  let args := [VStr "mysql://localhost/db"] in
  let st1 := Sample.state_after (Sample.call (Native 1) VUndefined args st) in
  ∃ st2,
    Sample.call
      (Wrapped 0 (TObj 1 "createConnection") (Native 1)
         (createConnection (Native 1)))
      (VObj 1) args st = Some (VObj 2, st2)
    ∧ Sample.invoke (VObj 2) "query" [VStr "SELECT 1"] st2
      = Sample.call (Native 10) (VObj 2) [VStr "SELECT 1"]
          (set_heap (heap st1) st2).
Proof.
  intros st args st1.
  destruct (stale_factory_connection_heals
              Sample.driver Sample.format Sample.getSpanName
              Sample.getConnectionAttributes
              (Native 1) 0 (TObj 1 "createConnection") (VObj 1) args
              [VStr "SELECT 1"] st st1 2 (Native 10))
    as (st2 & Hcall & _ & Hq).
  - vm_compute. reflexivity.
  - vm_compute. reflexivity.
  - vm_compute. reflexivity.
  - exists st2. split; [exact Hcall|exact Hq].
Defined.

Lemma activation_touches_only_factories_witness :
  touches_only 1 factories Sample.init (snd (patch Sample.init)).
Proof.
  destruct (activation_touches_only_factories 1 Sample.init) as (H & _).
  - reflexivity.
  - exact H.
Defined.

Lemma acquired_connection_is_instrumented_witness :
  let st :=
    set_heap (<[3 := Sample.connection_obj]> (heap Sample.pooled))
      Sample.pooled in
  let qargs := [VStr "SELECT 1"; VFun (Native 20)] in
  ∃ st1 sp,
    getConnectionCallback_wrap [VNull; VObj 3] st = Some st1
    ∧ ends sp = 0
    ∧ Sample.invoke (VObj 3) "query" qargs st1
      = Sample.call (Native 10) (VObj 3)
          (<[1 := VFun (Wrapped (S (next_uid st)) (TArguments 1) (Native 20)
                          (callbackQuery (length (_tracer st)) (Native 20)))]>
             qargs)
          (set_next_uid (S (S (next_uid st)))
             (set_tracer (_tracer st ++ [sp]) st1)).
Proof.
  intros st qargs.
  apply (acquired_connection_is_instrumented
           Sample.driver Sample.format Sample.getSpanName
           Sample.getConnectionAttributes).
  - reflexivity.
  - reflexivity.
  - vm_compute. reflexivity.
  - reflexivity.
  - reflexivity.
Defined.

Lemma enabled_call_starts_one_span_per_layer_witness :
  let args := [VStr "SELECT 1"; VFun (Native 20)] in
  ∃ args' st',
    Sample.call (wraps 2 "query" (Native 10) [7; 6]) (VObj 2) args
      Sample.rewrapped
    = Sample.call (Native 10) (VObj 2) args' st'
    ∧ length (_tracer st') = length (_tracer Sample.rewrapped) + length [7; 6].
Proof.
  intros args.
  destruct (enabled_call_starts_one_span_per_layer
              Sample.driver Sample.format Sample.getSpanName
              Sample.getConnectionAttributes
              2 (Native 10) [7; 6] args Sample.rewrapped)
    as (args' & st' & Hcall & Hlen & _).
  - reflexivity.
  - reflexivity.
  - exists args', st'. split; [exact Hcall|exact Hlen].
Defined.
